(** * Flashcard synthesis pipeline of [flashcard_generator.py]

    A shallow embedding of the class [FlashcardGenerator]: keyword
    extraction, sentence selection, the three question generators and deck
    assembly, followed by the properties stated about them.

    Modelling conventions.
    - A Python [str] is a [string]; its characters are the code points
      U+0000..U+00FF, classified as CPython classifies them
      ([str.isspace], [str.isalnum], [str.lower], the regex class [\w]).
    - The NLTK entry points ([word_tokenize], [sent_tokenize],
      [stopwords.words]) are an interface, record [Nltk]: each call either
      returns or raises, which is what the [try]/[except] wrappers of the
      source observe.
    - The module [random] is an interface too, class [RandomSource]: a
      generator state and [randbelow], the primitive from which CPython
      derives [choice], [sample] and [shuffle].
    - Exceptions are explicit: a computation returns [Ok] or [Raise].
    - The quiz page of [FlashcardPlayer] and [main] is a transition
      system: [st.session_state] is a record, a press of a button is an
      event, and the handler of a button that is not on the page, or is
      disabled, answers [None]. *)

From Stdlib Require Import String Ascii List Arith ZArith Lia Bool.
From Stdlib Require Import Permutation Sorted.
Import ListNotations.
Open Scope string_scope.
Open Scope list_scope.
Open Scope nat_scope.

(* ================================================================= *)
(** ** Exceptions *)

Inductive exn : Type :=
| IndexError
| ValueError
| LookupError.

Inductive result (A : Type) : Type :=
| Ok (a : A)
| Raise (e : exn).
Arguments Ok {A} a.
Arguments Raise {A} e.

(** [try: body except: handler] with a bare [except]: whatever [body]
    raises is caught, and what [handler] raises propagates. *)
Definition try_except {A} (body handler : result A) : result A :=
  match body with
  | Ok a => Ok a
  | Raise _ => handler
  end.

Definition bind_result {A B} (m : result A) (k : A -> result B) : result B :=
  match m with
  | Ok a => k a
  | Raise e => Raise e
  end.

Notation "x <~ m ;; k" := (bind_result m (fun x => k))
  (at level 61, m at next level, right associativity).

(* ================================================================= *)
(** ** Python strings *)

Definition code (c : ascii) : nat := nat_of_ascii c.

Definition between (lo hi n : nat) : bool := (lo <=? n) && (n <=? hi).

(** [str.isspace] on one character; also the separators of [str.split()]
    and the characters removed by [str.strip()]. *)
Definition isspace_char (c : ascii) : bool :=
  let n := code c in
  between 9 13 n || between 28 32 n || (n =? 133) || (n =? 160).

(** [str.isalnum] on one character. *)
Definition isalnum_char (c : ascii) : bool :=
  let n := code c in
  between 48 57 n || between 65 90 n || between 97 122 n
  || (n =? 170) || (n =? 178) || (n =? 179) || (n =? 181) || (n =? 185)
  || (n =? 186) || between 188 190 n
  || between 192 214 n || between 216 246 n || between 248 255 n.

(** The regex class [\w]: alphanumeric or underscore. *)
Definition isword_char (c : ascii) : bool :=
  isalnum_char c || (code c =? 95).

(** [str.lower] on one character. *)
Definition lower_char (c : ascii) : ascii :=
  let n := code c in
  if between 65 90 n || (between 192 222 n && negb (n =? 215))
  then ascii_of_nat (n + 32)
  else c.

Fixpoint map_string (f : ascii -> ascii) (s : string) : string :=
  match s with
  | EmptyString => EmptyString
  | String c s' => String (f c) (map_string f s')
  end.

Fixpoint filter_string (p : ascii -> bool) (s : string) : string :=
  match s with
  | EmptyString => EmptyString
  | String c s' =>
      if p c then String c (filter_string p s') else filter_string p s'
  end.

Fixpoint forallb_string (p : ascii -> bool) (s : string) : bool :=
  match s with
  | EmptyString => true
  | String c s' => p c && forallb_string p s'
  end.

(** [s.lower()] *)
Definition lower (s : string) : string := map_string lower_char s.

(** [s.isalnum()]: every character is alphanumeric and there is at least
    one character. *)
Definition isalnum (s : string) : bool :=
  match s with
  | EmptyString => false
  | _ => forallb_string isalnum_char s
  end.

(** [len(s)] *)
Definition len (s : string) : nat := String.length s.

Definition rev_string (acc : list ascii) : string :=
  string_of_list_ascii (rev acc).

(** [s.split()]: [acc] holds the characters of the word being read, last
    character first. *)
Fixpoint split_loop (acc : list ascii) (s : string) : list string :=
  match s with
  | EmptyString =>
      match acc with
      | [] => []
      | _ => [rev_string acc]
      end
  | String c s' =>
      if isspace_char c then
        match acc with
        | [] => split_loop [] s'
        | _ => rev_string acc :: split_loop [] s'
        end
      else split_loop (c :: acc) s'
  end.

Definition split (s : string) : list string := split_loop [] s.

(** [s.split(sep)] for a one-character separator: empty pieces are kept. *)
Fixpoint split_on_loop (sep : ascii) (acc : list ascii) (s : string)
  : list string :=
  match s with
  | EmptyString => [rev_string acc]
  | String c s' =>
      if Ascii.eqb c sep then rev_string acc :: split_on_loop sep [] s'
      else split_on_loop sep (c :: acc) s'
  end.

Definition split_on (sep : ascii) (s : string) : list string :=
  split_on_loop sep [] s.

Fixpoint lstrip (s : string) : string :=
  match s with
  | EmptyString => EmptyString
  | String c s' => if isspace_char c then lstrip s' else s
  end.

Fixpoint rstrip (s : string) : string :=
  match s with
  | EmptyString => EmptyString
  | String c s' =>
      match rstrip s' with
      | EmptyString => if isspace_char c then EmptyString else String c EmptyString
      | r => String c r
      end
  end.

(** [s.strip()] *)
Definition strip (s : string) : string := rstrip (lstrip s).

(** [sep.join(ws)] *)
Fixpoint join (sep : string) (ws : list string) : string :=
  match ws with
  | [] => EmptyString
  | [w] => w
  | w :: ws' => (w ++ sep ++ join sep ws')%string
  end.

Fixpoint drop (n : nat) (s : string) : string :=
  match n, s with
  | 0, _ => s
  | S n', String _ s' => drop n' s'
  | S _, EmptyString => EmptyString
  end.

(** [s.replace(old, new, 1)]: the leftmost occurrence of [old] is
    replaced; [s] is returned unchanged when there is none. *)
Fixpoint replace_first (old new s : string) : string :=
  if String.prefix old s then (new ++ drop (len old) s)%string
  else match s with
       | EmptyString => EmptyString
       | String c s' => String c (replace_first old new s')
       end.

(** [re.sub(r'[^\w]', '', s)] *)
Definition strip_non_word (s : string) : string := filter_string isword_char s.

(** [w in ws] for a list or a set of strings. *)
Definition mem (w : string) (ws : list string) : bool :=
  existsb (String.eqb w) ws.

(* ================================================================= *)
(** ** Python lists *)

(** [l[i] = v] for [i] in range. *)
Fixpoint set_nth {A} (i : nat) (v : A) (l : list A) : list A :=
  match l, i with
  | [], _ => []
  | _ :: l', 0 => v :: l'
  | x :: l', S i' => x :: set_nth i' v l'
  end.

(** [l[i]], raising [IndexError] out of range. *)
Definition index_at {A} (l : list A) (i : nat) : result A :=
  match nth_error l i with
  | Some x => Ok x
  | None => Raise IndexError
  end.

(** [l.index(w)], raising [ValueError] when [w] is absent. *)
Fixpoint list_index (l : list string) (w : string) : result nat :=
  match l with
  | [] => Raise ValueError
  | x :: l' =>
      if String.eqb x w then Ok 0
      else match list_index l' w with
           | Ok i => Ok (S i)
           | Raise e => Raise e
           end
  end.

(** [sorted(l, key=key, reverse=True)]: a stable sort, elements of equal
    key keep their order. *)
Fixpoint insert_desc {A} (key : A -> nat) (x : A) (l : list A) : list A :=
  match l with
  | [] => [x]
  | y :: l' =>
      if key x <? key y then y :: insert_desc key x l'
      else x :: l
  end.

Fixpoint sorted_desc {A} (key : A -> nat) (l : list A) : list A :=
  match l with
  | [] => []
  | x :: l' => insert_desc key x (sorted_desc key l')
  end.

(* ================================================================= *)
(** ** [FreqDist] (a [collections.Counter]) *)

(** The counter is a dictionary, which keeps its keys in insertion order. *)
Definition freqdist := list (string * nat).

Fixpoint fd_incr (w : string) (d : freqdist) : freqdist :=
  match d with
  | [] => [(w, 1)]
  | (k, n) :: d' =>
      if String.eqb k w then (k, S n) :: d' else (k, n) :: fd_incr w d'
  end.

(** [FreqDist(samples)] *)
Definition FreqDist (samples : list string) : freqdist :=
  fold_left (fun d w => fd_incr w d) samples [].

(** [fdist.most_common(n)]: the [n] largest counts, equal counts in
    insertion order. *)
Definition most_common (n : nat) (d : freqdist) : freqdist :=
  firstn n (sorted_desc snd d).

(* ================================================================= *)
(** ** The NLTK interface *)

Record Nltk : Type := {
  word_tokenize : string -> result (list string);
  sent_tokenize : string -> result (list string);
  stopwords_words : result (list string)
}.

(** An installation without the [punkt] and [stopwords] resources: every
    entry point raises [LookupError]. *)
Definition nltk_unavailable : Nltk := {|
  word_tokenize := fun _ => Raise LookupError;
  sent_tokenize := fun _ => Raise LookupError;
  stopwords_words := Raise LookupError
|}.

(* ================================================================= *)
(** ** The random source *)

Class RandomSource (R : Type) : Type := {
  randbelow : R -> nat -> nat * R;
  randbelow_lt : forall g n, 0 < n -> fst (randbelow g n) < n
}.

(** A scripted source: the raw draws are read off a tape and reduced
    modulo the bound; an exhausted tape keeps drawing [0]. *)
Definition tape := list nat.

Definition tape_randbelow (g : tape) (n : nat) : nat * tape :=
  match g with
  | [] => (0, [])
  | x :: g' => (x mod n, g')
  end.

Definition tape_randbelow_lt (g : tape) (n : nat)
  : 0 < n -> fst (tape_randbelow g n) < n :=
  match g with
  | [] => fun Hn => Hn
  | x :: _ => fun Hn => Nat.mod_upper_bound x n (proj2 (Nat.neq_0_lt_0 n) Hn)
  end.

#[export] Instance TapeSource : RandomSource tape := {|
  randbelow := tape_randbelow;
  randbelow_lt := tape_randbelow_lt
|}.

(** Computations that draw from the source and may raise. *)
Definition Rand (R A : Type) : Type := R -> result (A * R).

Definition ret {R A} (a : A) : Rand R A := fun g => Ok (a, g).

Definition bind {R A B} (m : Rand R A) (k : A -> Rand R B) : Rand R B :=
  fun g =>
    match m g with
    | Ok (a, g') => k a g'
    | Raise e => Raise e
    end.

Definition raise {R A} (e : exn) : Rand R A := fun _ => Raise e.

Definition lift {R A} (r : result A) : Rand R A :=
  fun g =>
    match r with
    | Ok a => Ok (a, g)
    | Raise e => Raise e
    end.

Notation "x <- m ;; k" := (bind m (fun x => k))
  (at level 61, m at next level, right associativity).

Section Random.
Context {R : Type} `{RandomSource R}.

Definition draw (n : nat) : Rand R nat :=
  fun g => Ok (randbelow g n).

(** [random.choice(seq)] *)
Definition choice {A} (seq : list A) : Rand R A :=
  match seq with
  | [] => raise IndexError
  | _ =>
      k <- draw (length seq) ;;
      lift (index_at seq k)
  end.

(** The loop of [random.sample]: at step [i] a position below [n - i]
    is drawn, its element is taken, and the element at [n - i - 1] is
    moved into its place. *)
Fixpoint sample_loop {A} (n steps i : nat) (pool : list A)
  : Rand R (list A) :=
  match steps with
  | 0 => ret []
  | S steps' =>
      j <- draw (n - i) ;;
      x <- lift (index_at pool j) ;;
      y <- lift (index_at pool (n - i - 1)) ;;
      rest <- sample_loop n steps' (S i) (set_nth j y pool) ;;
      ret (x :: rest)
  end.

(** [random.sample(population, k)] for a population of at most 21
    elements and [k <= 5]: CPython then runs the loop above on a copy
    of the population. This is always so inside [generate_flashcards],
    where [k] is 3 and the pool is drawn from at most 20 keywords. For a
    larger population CPython draws positions below [n] and draws again
    while the position is already taken, a loop this definition does not
    cover: the statements about [create_mcq_from_sentence] on keyword
    lists of any length that depend on the sample are made for at most
    21 keywords. *)
Definition sample {A} (population : list A) (k : nat) : Rand R (list A) :=
  let n := length population in
  if n <? k then raise ValueError
  else sample_loop n k 0 population.

(** The loop of [random.shuffle]: [i] runs from [len(x) - 1] down to
    [1], and [x[i], x[j] = x[j], x[i]] for a drawn [j <= i]. *)
Fixpoint shuffle_loop {A} (i : nat) (x : list A) : Rand R (list A) :=
  match i with
  | 0 => ret x
  | S i' =>
      j <- draw (S i) ;;
      xi <- lift (index_at x i) ;;
      xj <- lift (index_at x j) ;;
      shuffle_loop i' (set_nth j xi (set_nth i xj x))
  end.

(** [random.shuffle(x)] *)
Definition shuffle {A} (x : list A) : Rand R (list A) :=
  shuffle_loop (length x - 1) x.
End Random.

(* ================================================================= *)
(** ** Flashcards *)

(** A card is a dictionary whose key ["type"] selects one of three
    shapes; the constructor arguments are the remaining keys. *)
Inductive card : Type :=
| Mcq (question : string) (options : list string) (correct_answer : string)
      (correct_index : nat) (explanation : string)
| TrueFalse (question : string) (correct_answer : bool) (explanation : string)
| FillBlank (question : string) (correct_answer : string)
            (explanation : string).

(** [c['type'] == 'mcq'] *)
Definition is_mcq (c : card) : bool :=
  match c with Mcq _ _ _ _ _ => true | _ => false end.

(** [c['type'] == 'fill_blank'] *)
Definition is_fill_blank (c : card) : bool :=
  match c with FillBlank _ _ _ => true | _ => false end.

Definition blank : string := "________".

Definition general_distractors : list string :=
  ["concept"; "element"; "process"; "method"; "system";
   "principle"; "approach"; "structure"; "model"; "theory"].

Definition fallback_stopwords : list string :=
  ["a"; "an"; "the"; "and"; "or"; "but"; "if"; "because"; "as"; "what";
   "while"; "of"; "to"; "in"; "for"; "on"; "by"; "with"; "about"; "is";
   "are"].

Definition true_card (sentence : string) : card :=
  TrueFalse sentence true
            "This statement is directly from the source text.".

Definition false_card (modified_sentence : string) : card :=
  TrueFalse modified_sentence false
            "This statement has been modified from the original text.".

(* ================================================================= *)
(** ** [FlashcardGenerator] *)

Section Generator.
Variable nltk : Nltk.

(** [safe_sent_tokenize] *)
Definition safe_sent_tokenize (text : string) : result (list string) :=
  try_except
    (sent_tokenize nltk text)
    (Ok (map (fun s => (strip s ++ ".")%string)
             (filter (fun s => negb (String.eqb (strip s) ""))
                     (split_on "."%char text)))).

(** [safe_word_tokenize] *)
Definition safe_word_tokenize (text : string) : result (list string) :=
  try_except
    (word_tokenize nltk (lower text))
    (Ok (split (lower text))).

(** [get_stopwords] *)
Definition get_stopwords : result (list string) :=
  try_except (stopwords_words nltk) (Ok fallback_stopwords).

(** The filter shared by [extract_keywords] and
    [create_mcq_from_sentence]. *)
Definition content_word (stop_words : list string) (word : string) : bool :=
  isalnum word && negb (mem word stop_words) && (3 <? len word).

(** [extract_keywords] *)
Definition extract_keywords (text : string) (num_keywords : nat)
  : result (list string) :=
  words <~ safe_word_tokenize text ;;
  stop_words <~ get_stopwords ;;
  let filtered_words := filter (content_word stop_words) words in
  let fdist := FreqDist filtered_words in
  Ok (map fst (most_common num_keywords fdist)).

(** The [for sentence in sentences] loop of [extract_key_sentences]. *)
Fixpoint score_loop (keywords sentences : list string)
  : result (list (string * nat)) :=
  match sentences with
  | [] => Ok []
  | sentence :: rest =>
      if 8 <=? length (split sentence) then
        words <~ safe_word_tokenize sentence ;;
        let score := length (filter (fun word => mem word keywords) words) in
        sentence_scores <~ score_loop keywords rest ;;
        Ok ((sentence, score) :: sentence_scores)
      else score_loop keywords rest
  end.

(** [extract_key_sentences] *)
Definition extract_key_sentences (text : string) (num_sentences : nat)
  : result (list string * list string) :=
  sentences <~ safe_sent_tokenize text ;;
  keywords <~ extract_keywords text 20 ;;
  sentence_scores <~ score_loop keywords sentences ;;
  let top_sentences :=
    firstn num_sentences (sorted_desc snd sentence_scores) in
  Ok (map fst top_sentences, keywords).

(** The test of [create_fill_blank_from_sentence] on one word. *)
Definition fill_candidate (keywords : list string) (word : string) : bool :=
  let clean_word := strip_non_word (lower word) in
  mem clean_word keywords && (3 <? len clean_word).

(** The [for i, word in enumerate(words)] loop; [i] is the index in
    [words] of the head of [rest]. *)
Fixpoint fill_blank_loop (keywords words : list string) (i : nat)
         (rest : list string) : option card :=
  match rest with
  | [] => None
  | word :: rest' =>
      if fill_candidate keywords word then
        let blanked_words := set_nth i blank words in
        let blanked_sentence := join " " blanked_words in
        Some (FillBlank
                ("Fill in the blank: " ++ blanked_sentence)%string
                word
                ("The correct word is '" ++ word
                   ++ "' based on the context.")%string)
      else fill_blank_loop keywords words (S i) rest'
  end.

(** [create_fill_blank_from_sentence] *)
Definition create_fill_blank_from_sentence (sentence : string)
           (keywords : list string) : option card :=
  if length (split sentence) <? 10 then None
  else
    let words := split sentence in
    fill_blank_loop keywords words 0 words.

(** The comprehension that builds [content_words] in
    [create_true_false_from_sentence]; the stopword set is fetched for
    every word. *)
Fixpoint tf_content_words (words : list string) : result (list string) :=
  match words with
  | [] => Ok []
  | w :: rest =>
      stop_words <~ get_stopwords ;;
      content_words <~ tf_content_words rest ;;
      if negb (mem (lower w) stop_words) && (3 <? len w)
      then Ok (w :: content_words)
      else Ok content_words
  end.

Section WithRandom.
Context {R : Type} `{RandomSource R}.

(** The distractor pool of [create_mcq_from_sentence]. *)
Definition potential_distractors (keywords : list string)
           (target_word : string) : list string :=
  let pd := filter (fun w => negb (String.eqb w target_word)
                             && (2 <? len w)) keywords in
  if length pd <? 3 then pd ++ general_distractors else pd.

(** [create_mcq_from_sentence] *)
Definition create_mcq_from_sentence (sentence : string)
           (keywords : list string) : Rand R (option card) :=
  words <- lift (safe_word_tokenize sentence) ;;
  stop_words <- lift get_stopwords ;;
  let content_words := filter (content_word stop_words) words in
  match content_words with
  | [] => ret None
  | _ =>
      target_word <- choice content_words ;;
      let question_text := replace_first target_word blank sentence in
      let pd := potential_distractors keywords target_word in
      distractors <- sample pd (Nat.min 3 (length pd)) ;;
      options <- shuffle (distractors ++ [target_word]) ;;
      correct_index <- lift (list_index options target_word) ;;
      ret (Some (Mcq
             ("Complete the sentence: " ++ question_text)%string
             options
             target_word
             correct_index
             ("The correct answer is '" ++ target_word
                ++ "' based on the context.")%string))
  end.

(** The [for word in content_words] loop of
    [create_true_false_from_sentence]. *)
Fixpoint true_false_loop (sentence : string) (keywords : list string)
         (content_words : list string) : Rand R (list card) :=
  match content_words with
  | [] => ret [true_card sentence]
  | word :: rest =>
      replacement <- choice keywords ;;
      if negb (String.eqb (lower replacement) (lower word)) then
        let modified_sentence := replace_first word replacement sentence in
        ret [true_card sentence; false_card modified_sentence]
      else true_false_loop sentence keywords rest
  end.

(** [create_true_false_from_sentence] *)
Definition create_true_false_from_sentence (sentence : string)
           (keywords : list string) : Rand R (option (list card)) :=
  if length (split sentence) <? 8 then ret None
  else
    content_words <- lift (tf_content_words (split sentence)) ;;
    match content_words, keywords with
    | _ :: _, _ :: _ =>
        cards <- true_false_loop sentence keywords content_words ;;
        ret (Some cards)
    | _, _ => ret (Some [true_card sentence])
    end.

(** The MCQ loop of [generate_flashcards]. *)
Fixpoint mcq_loop (keywords : list string) (num_mcq : nat)
         (sentences : list string) (all_cards : list card)
  : Rand R (list card) :=
  match sentences with
  | [] => ret all_cards
  | sentence :: rest =>
      mcq <- create_mcq_from_sentence sentence keywords ;;
      match mcq with
      | Some c =>
          let all_cards' := all_cards ++ [c] in
          if num_mcq <=? length (filter is_mcq all_cards')
          then ret all_cards'
          else mcq_loop keywords num_mcq rest all_cards'
      | None => mcq_loop keywords num_mcq rest all_cards
      end
  end.

(** The true/false loop of [generate_flashcards]. *)
Fixpoint tf_loop (keywords : list string) (num_tf : nat)
         (sentences : list string) (tf_count : nat)
         (all_cards : list card) : Rand R (list card) :=
  match sentences with
  | [] => ret all_cards
  | sentence :: rest =>
      if num_tf <=? tf_count then ret all_cards
      else
        tf_questions <- create_true_false_from_sentence sentence keywords ;;
        match tf_questions with
        | Some (q :: qs) =>
            let taken := firstn (num_tf - tf_count) (q :: qs) in
            tf_loop keywords num_tf rest (tf_count + length taken)
                    (all_cards ++ taken)
        | _ => tf_loop keywords num_tf rest tf_count all_cards
        end
  end.

(** The fill-in-the-blank loop of [generate_flashcards]. *)
Fixpoint fill_loop (keywords : list string) (num_fill : nat)
         (sentences : list string) (all_cards : list card) : list card :=
  match sentences with
  | [] => all_cards
  | sentence :: rest =>
      if num_fill <=? length (filter is_fill_blank all_cards)
      then all_cards
      else
        match create_fill_blank_from_sentence sentence keywords with
        | Some fill_q =>
            fill_loop keywords num_fill rest (all_cards ++ [fill_q])
        | None => fill_loop keywords num_fill rest all_cards
        end
  end.

(** The three loops of [generate_flashcards]: the deck before it is
    shuffled. *)
Definition assemble (key_sentences keywords : list string)
           (num_mcq num_tf num_fill : nat) : Rand R (list card) :=
  all_cards <- mcq_loop keywords num_mcq
                        (firstn (num_mcq * 2) key_sentences) [] ;;
  all_cards <- tf_loop keywords num_tf key_sentences 0 all_cards ;;
  ret (fill_loop keywords num_fill key_sentences all_cards).

(** [generate_flashcards] *)
Definition generate_flashcards (text : string)
           (num_mcq num_tf num_fill : nat) : Rand R (list card) :=
  if String.eqb text "" || (len (strip text) <? 100) then ret []
  else
    ks <- lift (extract_key_sentences text 25) ;;
    let '(key_sentences, keywords) := ks in
    match key_sentences with
    | [] => ret []
    | _ =>
        all_cards <- assemble key_sentences keywords
                              num_mcq num_tf num_fill ;;
        shuffled <- shuffle all_cards ;;
        ret (firstn (num_mcq + num_tf + num_fill) shuffled)
    end.
End WithRandom.
End Generator.

(* ================================================================= *)
(** ** Vocabulary of the statements *)

(** Number of occurrences of a token in a token list. *)
Definition freq (words : list string) (w : string) : nat :=
  count_occ string_dec words w.

(** Position of the first occurrence of a token ([length words] when it
    does not occur). *)
Fixpoint first_index (words : list string) (w : string) : nat :=
  match words with
  | [] => 0
  | x :: words' => if String.eqb x w then 0 else S (first_index words' w)
  end.

(** [a] is ranked before [b]: more frequent, or as frequent and first
    seen earlier. *)
Definition ranks_before (words : list string) (a b : string) : Prop :=
  freq words b < freq words a
  \/ (freq words a = freq words b
      /\ first_index words a < first_index words b).

(** The order produced by a stable descending sort of a list that was
    in the order [ord]: larger key first, [ord] between equal keys. *)
Definition desc_then {A} (key : A -> nat) (ord : A -> A -> Prop) (x y : A)
  : Prop :=
  key y < key x \/ (key x = key y /\ ord x y).

(** No sentence of the text is long enough to be selected by
    [extract_key_sentences]. *)
Definition no_sentence_qualifies (nltk : Nltk) (text : string) : Prop :=
  forall sentences,
    safe_sent_tokenize nltk text = Ok sentences ->
    Forall (fun sentence => length (split sentence) < 8) sentences.

(** The normal form under which a blanked word and an answer are
    compared: lowercased, characters outside [\w] removed. *)
Definition normalized (word : string) : string :=
  strip_non_word (lower word).

(** [sub in s]: [sub] occurs in [s] as a substring. *)
Fixpoint occurs (sub s : string) : bool :=
  String.prefix sub s
  || match s with
     | EmptyString => false
     | String _ s' => occurs sub s'
     end.

(** The test that selects the content words of the true/false
    generator. *)
Definition tf_content_word (stop_words : list string) (w : string) : bool :=
  negb (mem (lower w) stop_words) && (3 <? len w).

(** Some keyword equals the word, case-insensitively. *)
Definition matches_keyword (keywords : list string) (w : string) : Prop :=
  exists k, In k keywords /\ lower k = lower w.

(** What [m] calls of [random.choice(keywords)] made one after the other
    from the state [g] return: the keyword of each call with the state
    the call leaves the generator in. *)
Fixpoint successive_choices {R : Type} `{RandomSource R}
         (keywords : list string) (m : nat) (g : R) : list (string * R) :=
  match m with
  | 0 => []
  | S m' =>
      match choice keywords g with
      | Ok (k, g') => (k, g') :: successive_choices keywords m' g'
      | Raise _ => []
      end
  end.



(** The sentence has a content word: the multiple-choice generator
    returns a card for it. *)
Definition mcq_eligible (nltk : Nltk) (sentence : string) : bool :=
  match safe_word_tokenize nltk sentence, get_stopwords nltk with
  | Ok words, Ok stop_words =>
      match filter (content_word stop_words) words with
      | [] => false
      | _ :: _ => true
      end
  | _, _ => false
  end.

(** [c] is a multiple-choice card made from [sentence]. *)
Definition mcq_card_of (sentence : string) (c : card) : Prop :=
  exists target options idx explanation,
    c = Mcq ("Complete the sentence: "
               ++ replace_first target blank sentence)%string
            options target idx explanation.

(** [cs] are the true/false cards made from [sentence]. *)
Definition tf_cards_of (sentence : string) (cs : list card) : Prop :=
  cs = [true_card sentence]
  \/ exists word replacement,
       cs = [true_card sentence;
             false_card (replace_first word replacement sentence)].

(** The fill-in-the-blank card of a sentence, if it has one. *)
Definition fill_cards_of (keywords : list string) (sentence : string)
  : list card :=
  match create_fill_blank_from_sentence sentence keywords with
  | Some c => [c]
  | None => []
  end.

(** Generator states, possibly of two different sources, that answer
    every request for a draw alike, and still do after the draw: what
    two sources seeded alike are to each other. *)
Definition simulation {R1 R2 : Type} `{RandomSource R1} `{RandomSource R2}
           (sim : R1 -> R2 -> Prop) : Prop :=
  forall g1 g2 n,
    sim g1 g2 ->
    fst (randbelow g1 n) = fst (randbelow g2 n)
    /\ sim (snd (randbelow g1 n)) (snd (randbelow g2 n)).

(** Two runs end alike: with the same value and related generator
    states, or with the same exception. *)
Definition same_outcome {R1 R2 A : Type} (sim : R1 -> R2 -> Prop)
           (r1 : result (A * R1)) (r2 : result (A * R2)) : Prop :=
  match r1, r2 with
  | Ok (a1, g1), Ok (a2, g2) => a1 = a2 /\ sim g1 g2
  | Raise e1, Raise e2 => e1 = e2
  | _, _ => False
  end.

Definition same_run {R1 R2 A : Type} (sim : R1 -> R2 -> Prop)
           (m1 : Rand R1 A) (m2 : Rand R2 A) : Prop :=
  forall g1 g2, sim g1 g2 -> same_outcome sim (m1 g1) (m2 g2).

(* ================================================================= *)
(** ** Vocabulary for the deck *)

(** [c['type'] == 'true_false'] *)
Definition is_true_false (c : card) : bool :=
  match c with TrueFalse _ _ _ => true | _ => false end.

(** A true/false card whose answer is [True], respectively [False]. *)
Definition is_true_card (c : card) : bool :=
  match c with TrueFalse _ true _ => true | _ => false end.

Definition is_false_card (c : card) : bool :=
  match c with TrueFalse _ false _ => true | _ => false end.

(** What the quiz runner relies on in a multiple-choice card: four
    options, and the recorded index points at the recorded answer. *)
Definition mcq_well_formed (c : card) : Prop :=
  match c with
  | Mcq _ options answer idx _ =>
      length options = 4 /\ nth_error options idx = Some answer
  | _ => True
  end.

(** The score [extract_key_sentences] gives a sentence: the number of
    its tokens that are keywords. *)
Definition score_of (nltk : Nltk) (keywords : list string)
           (sentence : string) : nat :=
  match safe_word_tokenize nltk sentence with
  | Ok words => length (filter (fun word => mem word keywords) words)
  | Raise _ => 0
  end.

(** [w] occurs in [s]: some text, [w], some text. *)
Definition substring_of (w s : string) : Prop :=
  exists pre post, s = (pre ++ w ++ post)%string.

(* ================================================================= *)
(** ** [FlashcardPlayer] and the page of [main] *)

(** [l[i]] for a Python [int]: a negative index counts from the end. *)
Definition py_index {A} (l : list A) (i : Z) : result A :=
  let n := Z.of_nat (length l) in
  if ((0 <=? i) && (i <? n))%Z then index_at l (Z.to_nat i)
  else if ((- n <=? i) && (i <? 0))%Z then index_at l (Z.to_nat (n + i))
  else Raise IndexError.

(** [selected_option] holds the index of an option or a truth value. *)
Inductive selection : Type :=
| SelIndex (i : nat)
| SelBool (b : bool).

(** The keys of [st.session_state] that the player uses. *)
Record session : Type := {
  flashcards : list card;
  current_card : Z;
  selected_option : option selection;
  user_answer : string;
  show_answer : bool;
  score : nat;
  total_answered : nat;
  quiz_completed : bool;
  show_stats : bool
}.

(** [init_session_state] on a fresh session. *)
Definition initial_session : session := {|
  flashcards := [];
  current_card := 0;
  selected_option := None;
  user_answer := "";
  show_answer := false;
  score := 0;
  total_answered := 0;
  quiz_completed := false;
  show_stats := false
|}.

(** [reset_quiz] *)
Definition reset_quiz (s : session) : session := {|
  flashcards := flashcards s;
  current_card := 0;
  selected_option := None;
  user_answer := "";
  show_answer := false;
  score := 0;
  total_answered := 0;
  quiz_completed := false;
  show_stats := show_stats s
|}.

(** The assignments made when an answer button is pressed. *)
Definition record_answer (selected : option selection) (answer : string)
           (correct : bool) (s : session) : session := {|
  flashcards := flashcards s;
  current_card := current_card s;
  selected_option := selected;
  user_answer := answer;
  show_answer := true;
  score := if correct then score s + 1 else score s;
  total_answered := total_answered s + 1;
  quiz_completed := quiz_completed s;
  show_stats := show_stats s
|}.

(** The assignments of the Previous and Next buttons. *)
Definition move_to (position : Z) (s : session) : session := {|
  flashcards := flashcards s;
  current_card := position;
  selected_option := None;
  user_answer := "";
  show_answer := false;
  score := score s;
  total_answered := total_answered s;
  quiz_completed := quiz_completed s;
  show_stats := show_stats s
|}.

Definition set_flashcards (deck : list card) (s : session) : session := {|
  flashcards := deck;
  current_card := current_card s;
  selected_option := selected_option s;
  user_answer := user_answer s;
  show_answer := show_answer s;
  score := score s;
  total_answered := total_answered s;
  quiz_completed := quiz_completed s;
  show_stats := show_stats s
|}.

Definition set_quiz_completed (s : session) : session := {|
  flashcards := flashcards s;
  current_card := current_card s;
  selected_option := selected_option s;
  user_answer := user_answer s;
  show_answer := show_answer s;
  score := score s;
  total_answered := total_answered s;
  quiz_completed := true;
  show_stats := show_stats s
|}.

Definition toggle_show_stats (s : session) : session := {|
  flashcards := flashcards s;
  current_card := current_card s;
  selected_option := selected_option s;
  user_answer := user_answer s;
  show_answer := show_answer s;
  score := score s;
  total_answered := total_answered s;
  quiz_completed := quiz_completed s;
  show_stats := negb (show_stats s)
|}.

(** The comparison of [display_fill_blank_input]: both sides lowercased
    and stripped of the characters outside [\w]. *)
Definition fill_answer_correct (correct_answer user_input : string) : bool :=
  String.eqb (strip_non_word (lower correct_answer))
             (strip_non_word (lower user_input)).

(** What the user can do on the page: press one of the buttons, the
    generate button with a text and slider values, an answer button, a
    navigation button. *)
Inductive event : Type :=
| Generate (text : string) (num_mcq num_tf num_fill : nat)
| ClickOption (i : nat)
| ClickTrue
| ClickFalse
| SubmitAnswer (user_input : string)
| ClickPrevious
| ClickNext
| ClickFinish
| ClickReset
| ClickShuffle
| ClickShowStats
| ClickStartNewQuiz.

Section Player.
Variable nltk : Nltk.
Context {R : Type} `{RandomSource R}.

(** The generate buttons of [main]. *)
Definition on_generate (text : string) (num_mcq num_tf num_fill : nat)
           (s : session) : Rand R session :=
  if String.eqb text "" then ret s
  else
    deck <- generate_flashcards nltk text num_mcq num_tf num_fill ;;
    match deck with
    | [] => ret s
    | _ => ret (reset_quiz (set_flashcards deck s))
    end.

(** The answer buttons of [display_question_card], shown while
    [show_answer] is off; [None] when the button is not on the page. *)
Definition on_answer (card : card) (ev : event) (s : session)
  : option session :=
  if show_answer s then None
  else
    match card, ev with
    | Mcq _ options _ correct_index _, ClickOption i =>
        if i <? length options
        then Some (record_answer (Some (SelIndex i)) (user_answer s)
                                 (i =? correct_index) s)
        else None
    | TrueFalse _ correct_answer _, ClickTrue =>
        Some (record_answer (Some (SelBool true)) (user_answer s)
                            correct_answer s)
    | TrueFalse _ correct_answer _, ClickFalse =>
        Some (record_answer (Some (SelBool false)) (user_answer s)
                            (negb correct_answer) s)
    | FillBlank _ correct_answer _, SubmitAnswer user_input =>
        Some (record_answer (selected_option s) (strip user_input)
                            (fill_answer_correct correct_answer user_input) s)
    | _, _ => None
    end.

(** The buttons of [display_navigation]. *)
Definition on_navigation (ev : event) (s : session)
  : Rand R (option session) :=
  let last := (Z.of_nat (length (flashcards s)) - 1)%Z in
  match ev with
  | ClickPrevious =>
      if (current_card s =? 0)%Z then ret None
      else ret (Some (move_to (current_card s - 1)%Z s))
  | ClickNext =>
      if (current_card s =? last)%Z then ret None
      else ret (Some (move_to (current_card s + 1)%Z s))
  | ClickFinish =>
      if (current_card s =? last)%Z then ret (Some (set_quiz_completed s))
      else ret None
  | ClickReset => ret (Some (reset_quiz s))
  | ClickShuffle =>
      shuffled <- shuffle (flashcards s) ;;
      ret (Some (reset_quiz (set_flashcards shuffled s)))
  | ClickShowStats => ret (Some (toggle_show_stats s))
  | _ => ret None
  end.

(** [play_flashcards], as [main] calls it: the page for a session and
    what pressing a button on it does. [None]: the button is not on the
    page, or is disabled. *)
Definition click (s : session) (ev : event) : Rand R (option session) :=
  match ev with
  | Generate text num_mcq num_tf num_fill =>
      s' <- on_generate text num_mcq num_tf num_fill s ;;
      ret (Some s')
  | _ =>
      match flashcards s with
      | [] => ret None
      | _ =>
          if quiz_completed s then
            match ev with
            | ClickStartNewQuiz =>
                if 0 <? total_answered s then ret (Some (reset_quiz s))
                else ret None
            | _ => ret None
            end
          else
            current <- lift (py_index (flashcards s) (current_card s)) ;;
            match on_answer current ev s with
            | Some s' => ret (Some s')
            | None => on_navigation ev s
            end
      end
  end.

(** A sequence of presses; a press of a button that is not on the page
    leaves the session as it is. *)
Fixpoint clicks (s : session) (evs : list event) : Rand R session :=
  match evs with
  | [] => ret s
  | ev :: rest =>
      r <- click s ev ;;
      match r with
      | Some s' => clicks s' rest
      | None => clicks s rest
      end
  end.
End Player.

(** What the page needs of a session: the counters are consistent and
    the current position is an index of the deck. *)
Definition session_ok (s : session) : Prop :=
  score s <= total_answered s
  /\ (flashcards s <> [] ->
      (0 <= current_card s < Z.of_nat (length (flashcards s)))%Z).

(** [c in s] for a character. *)
Fixpoint has_char (c : ascii) (s : string) : bool :=
  match s with
  | EmptyString => false
  | String x s' => Ascii.eqb x c || has_char c s'
  end.

(** A button that answers the card shown. *)
Definition answer_button (c : card) : event :=
  match c with
  | Mcq _ _ _ _ _ => ClickOption 0
  | TrueFalse _ _ _ => ClickTrue
  | FillBlank _ _ _ => SubmitAnswer ""
  end.

(* ================================================================= *)
(** ** The wrappers around NLTK never raise *)

Lemma safe_word_tokenize_total (nltk : Nltk) (text : string) :
  exists words, safe_word_tokenize nltk text = Ok words.
Proof.
  unfold safe_word_tokenize, try_except.
  destruct (word_tokenize nltk (lower text)) as [ws|e]; eauto.
Qed.

Lemma safe_sent_tokenize_total (nltk : Nltk) (text : string) :
  exists sentences, safe_sent_tokenize nltk text = Ok sentences.
Proof.
  unfold safe_sent_tokenize, try_except.
  destruct (sent_tokenize nltk text) as [ss|e]; eauto.
Qed.

Lemma get_stopwords_total (nltk : Nltk) :
  exists stop_words, get_stopwords nltk = Ok stop_words.
Proof.
  unfold get_stopwords, try_except.
  destruct (stopwords_words nltk) as [ss|e]; eauto.
Qed.

Lemma extract_keywords_total (nltk : Nltk) (text : string) (K : nat) :
  exists kws, extract_keywords nltk text K = Ok kws.
Proof.
  unfold extract_keywords.
  destruct (safe_word_tokenize_total nltk text) as [ws ->].
  destruct (get_stopwords_total nltk) as [ss ->].
  simpl. eauto.
Qed.

Lemma split_lower_empty : split (lower "") = [].
Proof. reflexivity. Qed.

(** C3. [extract_keywords] returns a keyword list, and never raises,
    for every text and every behaviour of the NLTK entry points (each of
    which may return or raise); on the empty string, for which a tokenizer
    that answers at all answers with no token, the list is empty. *)
Theorem extract_keywords_never_raises
        (nltk : Nltk) (text : string) (K : nat) :
  (exists kws, extract_keywords nltk text K = Ok kws)
  /\ ((forall ws, word_tokenize nltk (lower "") = Ok ws -> ws = []) ->
      extract_keywords nltk "" K = Ok []).
Proof.
  split.
  - apply extract_keywords_total.
  - intros Hempty.
    unfold extract_keywords, safe_word_tokenize, try_except.
    destruct (word_tokenize nltk (lower "")) as [ws|e] eqn:Hw.
    + rewrite (Hempty ws eq_refl). simpl.
      destruct (get_stopwords_total nltk) as [ss ->]. simpl.
      unfold most_common. simpl. now rewrite firstn_nil.
    + rewrite split_lower_empty. simpl.
      destruct (get_stopwords_total nltk) as [ss ->]. simpl.
      unfold most_common. simpl. now rewrite firstn_nil.
Qed.

Lemma extract_keywords_never_raises_witness :
  (exists kws, extract_keywords nltk_unavailable "" 20 = Ok kws)
  /\ extract_keywords nltk_unavailable "" 20 = Ok [].
Proof.
  destruct (extract_keywords_never_raises nltk_unavailable "" 20)
    as [Htotal Hempty].
  split.
  - exact Htotal.
  - apply Hempty. intros ws Hws. simpl in Hws. discriminate Hws.
Defined.

(* ================================================================= *)
(** ** Sorted lists *)

Section StronglySortedFacts.
Context {A : Type}.

Lemma StronglySorted_impl_in (P Q : A -> A -> Prop) (l : list A) :
  (forall a b, In a l -> In b l -> P a b -> Q a b) ->
  StronglySorted P l -> StronglySorted Q l.
Proof.
  induction l as [|x l IH]; intros Himp Hs.
  - constructor.
  - inversion Hs as [|? ? Hs' Hall]; subst. constructor.
    + apply IH; [|exact Hs'].
      intros a b Ha Hb. apply Himp; now right.
    + rewrite Forall_forall in *. intros y Hy.
      apply Himp; [now left | now right | now apply Hall].
Qed.

Lemma StronglySorted_snoc (P : A -> A -> Prop) (l : list A) (x : A) :
  StronglySorted P l -> Forall (fun a => P a x) l ->
  StronglySorted P (l ++ [x]).
Proof.
  induction l as [|y l IH]; intros Hs Hall; simpl.
  - repeat constructor.
  - inversion Hs as [|? ? Hs' Hy]; subst.
    inversion Hall as [|? ? Hyx Hall']; subst.
    constructor.
    + now apply IH.
    + apply Forall_app. split; [exact Hy | now constructor].
Qed.

Lemma StronglySorted_app_cross (P : A -> A -> Prop) (l1 l2 : list A) :
  StronglySorted P (l1 ++ l2) ->
  StronglySorted P l1
  /\ forall a b, In a l1 -> In b l2 -> P a b.
Proof.
  induction l1 as [|x l1 IH]; simpl; intros Hs.
  - split; [constructor | intros a b []].
  - inversion Hs as [|? ? Hs' Hall]; subst.
    destruct (IH Hs') as [Hl1 Hcross].
    apply Forall_app in Hall. destruct Hall as [Hall1 Hall2].
    split.
    + now constructor.
    + intros a b [<-|Ha] Hb.
      * rewrite Forall_forall in Hall2. now apply Hall2.
      * now apply Hcross.
Qed.

Lemma StronglySorted_map {B} (f : A -> B) (P : B -> B -> Prop)
      (l : list A) :
  StronglySorted (fun x y => P (f x) (f y)) l <->
  StronglySorted P (map f l).
Proof.
  induction l as [|x l IH]; simpl.
  - split; constructor.
  - split; intros Hs; inversion Hs as [|? ? Hs' Hall]; subst;
      constructor; try (now apply IH).
    + rewrite Forall_forall in *. intros y Hy.
      apply in_map_iff in Hy. destruct Hy as [z [<- Hz]]. now apply Hall.
    + rewrite Forall_forall in *. intros y Hy.
      apply Hall. now apply in_map.
Qed.
End StronglySortedFacts.

Section SortedDesc.
Context {A : Type} (key : A -> nat) (ord : A -> A -> Prop).

Lemma insert_desc_perm (x : A) (l : list A) :
  Permutation (insert_desc key x l) (x :: l).
Proof.
  induction l as [|y l IH]; simpl.
  - reflexivity.
  - destruct (key x <? key y).
    + rewrite IH. apply perm_swap.
    + reflexivity.
Qed.

Lemma sorted_desc_perm (l : list A) : Permutation (sorted_desc key l) l.
Proof.
  induction l as [|x l IH]; simpl.
  - reflexivity.
  - rewrite insert_desc_perm. now constructor.
Qed.

Lemma desc_then_key (x y : A) : desc_then key ord x y -> key y <= key x.
Proof. intros [Hlt|[Heq _]]; lia. Qed.

Lemma insert_desc_sorted (x : A) (l : list A) :
  StronglySorted (desc_then key ord) l ->
  Forall (ord x) l ->
  StronglySorted (desc_then key ord) (insert_desc key x l).
Proof.
  induction l as [|y l IH]; intros Hs Hord; simpl.
  - repeat constructor.
  - inversion Hs as [|? ? Hs' Hy]; subst.
    inversion Hord as [|? ? Hxy Hord']; subst.
    destruct (key x <? key y) eqn:Hk.
    + apply Nat.ltb_lt in Hk. constructor.
      * now apply IH.
      * rewrite Forall_forall in *. intros z Hz.
        apply (Permutation_in _ (insert_desc_perm x l)) in Hz.
        destruct Hz as [<-|Hz]; [now left | now apply Hy].
    + apply Nat.ltb_ge in Hk. constructor; [exact Hs|].
      constructor.
      * destruct (Nat.eq_dec (key x) (key y)) as [He|Hne];
          [right; now split | left; lia].
      * rewrite Forall_forall in *. intros z Hz.
        pose proof (desc_then_key _ _ (Hy z Hz)) as Hzy.
        destruct (Nat.eq_dec (key x) (key z)) as [He|Hne];
          [right; split; [exact He | now apply Hord'] | left; lia].
Qed.

Lemma sorted_desc_sorted (l : list A) :
  StronglySorted ord l ->
  StronglySorted (desc_then key ord) (sorted_desc key l).
Proof.
  induction l as [|x l IH]; intros Hs; simpl.
  - constructor.
  - inversion Hs as [|? ? Hs' Hx]; subst.
    apply insert_desc_sorted; [now apply IH|].
    rewrite Forall_forall in *. intros z Hz. apply Hx.
    now apply (Permutation_in _ (sorted_desc_perm l)).
Qed.
End SortedDesc.

(* ================================================================= *)
(** ** Occurrences *)

Lemma first_index_app_in (l m : list string) (a : string) :
  In a l -> first_index (l ++ m) a = first_index l a.
Proof.
  induction l as [|x l IH]; simpl; intros Hin; [easy|].
  destruct (String.eqb_spec x a) as [->|Hne]; [reflexivity|].
  destruct Hin as [->|Hin]; [easy|]. now rewrite IH.
Qed.

Lemma first_index_app_notin (l m : list string) (a : string) :
  ~ In a l -> first_index (l ++ m) a = length l + first_index m a.
Proof.
  induction l as [|x l IH]; simpl; intros Hin; [reflexivity|].
  destruct (String.eqb_spec x a) as [->|Hne]; [tauto|].
  rewrite IH; tauto.
Qed.

Lemma first_index_lt (l : list string) (a : string) :
  In a l -> first_index l a < length l.
Proof.
  induction l as [|x l IH]; simpl; intros Hin; [easy|].
  destruct (String.eqb_spec x a) as [->|Hne]; [lia|].
  destruct Hin as [->|Hin]; [easy|]. apply IH in Hin. lia.
Qed.

Lemma freq_snoc (l : list string) (x w : string) :
  freq (l ++ [x]) w = freq l w + (if string_dec x w then 1 else 0).
Proof.
  unfold freq. rewrite count_occ_app. simpl.
  destruct (string_dec x w); reflexivity.
Qed.

(* ================================================================= *)
(** ** [FreqDist] *)

Lemma FreqDist_snoc (l : list string) (x : string) :
  FreqDist (l ++ [x]) = fd_incr x (FreqDist l).
Proof. unfold FreqDist. now rewrite fold_left_app. Qed.

Lemma fd_incr_keys_in (x : string) (d : freqdist) :
  In x (map fst d) -> map fst (fd_incr x d) = map fst d.
Proof.
  induction d as [|[k n] d IH]; simpl; intros Hin; [easy|].
  destruct (String.eqb_spec k x) as [->|Hne]; simpl; [reflexivity|].
  destruct Hin as [Hk|Hin]; [easy|]. now rewrite IH.
Qed.

Lemma fd_incr_keys_new (x : string) (d : freqdist) :
  ~ In x (map fst d) -> map fst (fd_incr x d) = map fst d ++ [x].
Proof.
  induction d as [|[k n] d IH]; simpl; intros Hin; [reflexivity|].
  destruct (String.eqb_spec k x) as [->|Hne]; simpl; [tauto|].
  rewrite IH; tauto.
Qed.

Lemma fd_incr_other (x w : string) (n : nat) (d : freqdist) :
  w <> x -> In (w, n) (fd_incr x d) -> In (w, n) d.
Proof.
  intros Hne. induction d as [|[k m] d IH]; simpl.
  - intros [Heq|[]]. congruence.
  - destruct (String.eqb_spec k x) as [->|Hkx]; simpl.
    + intros [Heq|Hin]; [congruence | now right].
    + intros [Heq|Hin]; [now left | right; now apply IH].
Qed.

Lemma fd_incr_same (x : string) (n : nat) (d : freqdist) :
  NoDup (map fst d) -> In (x, n) (fd_incr x d) ->
  (~ In x (map fst d) /\ n = 1) \/ (exists m, In (x, m) d /\ n = S m).
Proof.
  induction d as [|[k m] d IH]; simpl; intros Hnd Hin.
  - destruct Hin as [Heq|[]]. left. split; [tauto | congruence].
  - inversion Hnd as [|? ? Hk Hnd']; subst.
    destruct (String.eqb_spec k x) as [->|Hkx]; simpl in Hin.
    + destruct Hin as [Heq|Hin].
      * right. exists m. split; [now left | congruence].
      * exfalso. apply Hk. change x with (fst (x, n)). now apply in_map.
    + destruct Hin as [Heq|Hin]; [congruence|].
      destruct (IH Hnd' Hin) as [[Hnot ->]|[m' [Hm' ->]]].
      * left. split; [|reflexivity]. intros [Hc|Hc]; [easy | now apply Hnot].
      * right. exists m'. split; [now right | reflexivity].
Qed.

Lemma in_keys (w : string) (d : freqdist) :
  In w (map fst d) -> exists n, In (w, n) d.
Proof.
  intros Hin. apply in_map_iff in Hin. destruct Hin as [[k n] [<- Hin]].
  now exists n.
Qed.

(** What [FreqDist] holds after counting the tokens that pass a filter:
    one entry per such token, with its number of occurrences, in the
    order of first occurrence. *)
Lemma FreqDist_filter (p : string -> bool) (l : list string) :
  NoDup (map fst (FreqDist (filter p l)))
  /\ (forall w n, In (w, n) (FreqDist (filter p l)) ->
                  n = freq l w /\ p w = true /\ In w l)
  /\ (forall w, In w l -> p w = true ->
                In w (map fst (FreqDist (filter p l))))
  /\ StronglySorted (fun a b => first_index l a < first_index l b)
                    (map fst (FreqDist (filter p l))).
Proof.
  induction l as [|x l IH] using rev_ind.
  - simpl. repeat split; try constructor; try easy.
  - destruct IH as (Hnd & Hcnt & Hall & Hord).
    assert (Hkeys : forall a, In a (map fst (FreqDist (filter p l))) ->
                              In a l /\ p a = true).
    { intros a Ha. destruct (in_keys _ _ Ha) as [n Hn].
      destruct (Hcnt _ _ Hn) as (_ & Hp & Hin). now split. }
    assert (Hord' : StronglySorted
              (fun a b => first_index (l ++ [x]) a < first_index (l ++ [x]) b)
              (map fst (FreqDist (filter p l)))).
    { eapply StronglySorted_impl_in; [|exact Hord].
      intros a b Ha Hb Hab. simpl.
      rewrite !first_index_app_in; [exact Hab | |]; now apply Hkeys. }
    rewrite filter_app. simpl.
    destruct (p x) eqn:Hpx.
    + rewrite FreqDist_snoc.
      destruct (in_dec string_dec x (map fst (FreqDist (filter p l))))
        as [Hx|Hx].
      * rewrite fd_incr_keys_in by exact Hx.
        repeat split; try assumption.
        -- destruct (string_dec w x) as [->|Hwx].
           ++ destruct (fd_incr_same _ _ _ Hnd H) as [[Hc _]|[m [Hm ->]]];
                [easy|].
              destruct (Hcnt _ _ Hm) as (-> & _ & _).
              rewrite freq_snoc. destruct (string_dec x x); [lia | easy].
           ++ apply fd_incr_other in H; [|exact Hwx].
              destruct (Hcnt _ _ H) as (-> & _ & _).
              rewrite freq_snoc. destruct (string_dec x w); [congruence | lia].
        -- destruct (string_dec w x) as [->|Hwx]; [exact Hpx|].
           apply fd_incr_other in H; [|exact Hwx]. now apply Hcnt in H.
        -- destruct (string_dec w x) as [->|Hwx];
             [apply in_or_app; right; now left|].
           apply fd_incr_other in H; [|exact Hwx].
           apply in_or_app. left. now apply Hcnt in H.
        -- intros w Hw Hp. apply in_app_or in Hw.
           destruct Hw as [Hw|[<-|[]]]; [now apply Hall | exact Hx].
      * assert (Hxl : ~ In x l) by (intros Hc; apply Hx; now apply Hall).
        rewrite fd_incr_keys_new by exact Hx.
        repeat split.
        -- apply NoDup_app; [exact Hnd | repeat constructor; easy |].
           intros a Ha [<-|[]]. now apply Hx.
        -- destruct (string_dec w x) as [->|Hwx].
           ++ destruct (fd_incr_same _ _ _ Hnd H) as [[_ ->]|[m [Hm _]]].
              ** rewrite freq_snoc. destruct (string_dec x x); [|easy].
                 unfold freq. rewrite (proj1 (count_occ_not_In _ _ _) Hxl).
                 reflexivity.
              ** exfalso. apply Hx. change x with (fst (x, m)).
                 now apply in_map.
           ++ apply fd_incr_other in H; [|exact Hwx].
              destruct (Hcnt _ _ H) as (-> & _ & _).
              rewrite freq_snoc. destruct (string_dec x w); [congruence | lia].
        -- destruct (string_dec w x) as [->|Hwx]; [exact Hpx|].
           apply fd_incr_other in H; [|exact Hwx]. now apply Hcnt in H.
        -- destruct (string_dec w x) as [->|Hwx];
             [apply in_or_app; right; now left|].
           apply fd_incr_other in H; [|exact Hwx].
           apply in_or_app. left. now apply Hcnt in H.
        -- intros w Hw Hp. apply in_or_app. apply in_app_or in Hw.
           destruct Hw as [Hw|[<-|[]]]; [left; now apply Hall | right; now left].
        -- apply StronglySorted_snoc; [exact Hord'|].
           rewrite Forall_forall. intros a Ha.
           destruct (Hkeys a Ha) as [Hal _].
           rewrite first_index_app_in by exact Hal.
           rewrite first_index_app_notin by exact Hxl.
           pose proof (first_index_lt _ _ Hal). lia.
    + rewrite app_nil_r.
      repeat split; try assumption.
      * destruct (Hcnt _ _ H) as (-> & Hp & _).
        rewrite freq_snoc. destruct (string_dec x w); [congruence | lia].
      * now apply Hcnt in H.
      * apply in_or_app. left. now apply Hcnt in H.
      * intros w Hw Hp. apply in_app_or in Hw.
        destruct Hw as [Hw|[<-|[]]]; [now apply Hall | congruence].
Qed.

(* ================================================================= *)
(** ** Keyword extraction *)

(** C8. The keywords returned for a target count [K] are at most [K]
    pairwise distinct tokens of the text, each alphanumeric, longer than
    three characters and outside the stopword set; they are in descending
    order of frequency among the tokens, equally frequent ones in the
    order of their first occurrence; and they are the top of that ranking:
    an eligible token that was left out ranks after every keyword, and
    then exactly [K] keywords were returned. *)
Theorem extract_keywords_ranked
        (nltk : Nltk) (text : string) (K : nat)
        (words stop_words kws : list string) :
  safe_word_tokenize nltk text = Ok words ->
  get_stopwords nltk = Ok stop_words ->
  extract_keywords nltk text K = Ok kws ->
  length kws <= K
  /\ NoDup kws
  /\ (forall w, In w kws ->
        In w words /\ isalnum w = true /\ 3 < len w
        /\ mem w stop_words = false)
  /\ StronglySorted (ranks_before words) kws
  /\ (forall w, In w words -> content_word stop_words w = true ->
        ~ In w kws ->
        length kws = K /\ forall k, In k kws -> ranks_before words k w).
Proof.
  intros Hwords Hstop Hkws.
  unfold extract_keywords in Hkws. rewrite Hwords, Hstop in Hkws.
  simpl in Hkws. injection Hkws as <-.
  set (p := content_word stop_words).
  destruct (FreqDist_filter p words) as (Hnd & Hcnt & Hall & Hord).
  set (d := FreqDist (filter p words)) in *.
  set (ord := fun x y : string * nat =>
                first_index words (fst x) < first_index words (fst y)).
  assert (Hsorted : StronglySorted (desc_then snd ord) (sorted_desc snd d)).
  { apply sorted_desc_sorted. unfold ord.
    now apply (proj2 (StronglySorted_map fst
                 (fun a b => first_index words a < first_index words b) d)). }
  pose proof (sorted_desc_perm snd d) as Hperm.
  assert (Hin : forall e, In e (sorted_desc snd d) -> In e d).
  { intros e He. now apply (Permutation_in _ Hperm). }
  assert (Hrank : forall x y, In x d -> In y d ->
                    desc_then snd ord x y ->
                    ranks_before words (fst x) (fst y)).
  { intros [a na] [b nb] Hx Hy Hxy.
    destruct (Hcnt _ _ Hx) as (-> & _ & _).
    destruct (Hcnt _ _ Hy) as (-> & _ & _).
    exact Hxy. }
  unfold most_common.
  rewrite <- (firstn_skipn K (sorted_desc snd d)) in Hsorted.
  apply StronglySorted_app_cross in Hsorted.
  destruct Hsorted as [Hfirst Hcross].
  assert (Hfin : forall e, In e (firstn K (sorted_desc snd d)) -> In e d).
  { intros e He. apply Hin.
    rewrite <- (firstn_skipn K (sorted_desc snd d)).
    apply in_or_app. now left. }
  split; [|split; [|split; [|split]]].
  - rewrite length_map. apply firstn_le_length.
  - rewrite <- firstn_map.
    apply (NoDup_app_remove_r _ (skipn K (map fst (sorted_desc snd d)))).
    rewrite firstn_skipn.
    apply (Permutation_NoDup (l := map fst d)); [|exact Hnd].
    apply Permutation_map. now symmetry.
  - intros w Hw. apply in_map_iff in Hw. destruct Hw as [[k n] [<- He]].
    apply Hfin in He. destruct (Hcnt _ _ He) as (_ & Hp & Hwin). simpl.
    unfold p, content_word in Hp.
    apply andb_true_iff in Hp. destruct Hp as [Hp Hlen].
    apply andb_true_iff in Hp. destruct Hp as [Halnum Hmem].
    apply Nat.ltb_lt in Hlen. apply negb_true_iff in Hmem.
    now repeat split.
  - apply (proj1 (StronglySorted_map fst (ranks_before words) _)).
    apply (StronglySorted_impl_in (desc_then snd ord)); [|exact Hfirst].
    intros x y Hx Hy. apply Hrank; now apply Hfin.
  - intros w Hw Hp Hnot.
    destruct (in_keys _ _ (Hall w Hw Hp)) as [n Hn].
    apply (Permutation_in _ (Permutation_sym Hperm)) in Hn.
    rewrite <- (firstn_skipn K (sorted_desc snd d)) in Hn.
    apply in_app_or in Hn. destruct Hn as [Hn|Hn].
    { exfalso. apply Hnot. change w with (fst (w, n)). now apply in_map. }
    split.
    + rewrite length_map, length_firstn.
      destruct (Nat.le_gt_cases K (length (sorted_desc snd d)))
        as [Hle|Hgt]; [lia|].
      rewrite skipn_all2 in Hn by lia. destruct Hn.
    + intros k Hk. apply in_map_iff in Hk. destruct Hk as [e [<- He]].
      change w with (fst (w, n)). apply Hrank.
      * now apply Hfin.
      * apply Hin. rewrite <- (firstn_skipn K (sorted_desc snd d)).
        apply in_or_app. now right.
      * now apply Hcross.
Qed.

Lemma extract_keywords_ranked_witness :
  let words := ["beta"; "alpha"; "gamma"; "alpha"; "beta"; "delta"; "the"] in
  let kws := ["beta"; "alpha"; "gamma"] in
  length kws <= 3
  /\ NoDup kws
  /\ (forall w, In w kws ->
        In w words /\ isalnum w = true /\ 3 < len w
        /\ mem w fallback_stopwords = false)
  /\ StronglySorted (ranks_before words) kws
  /\ (forall w, In w words -> content_word fallback_stopwords w = true ->
        ~ In w kws ->
        length kws = 3 /\ forall k, In k kws -> ranks_before words k w).
Proof.
  exact (extract_keywords_ranked nltk_unavailable
           "Beta alpha gamma alpha beta delta the" 3
           ["beta"; "alpha"; "gamma"; "alpha"; "beta"; "delta"; "the"]
           fallback_stopwords
           ["beta"; "alpha"; "gamma"]
           eq_refl eq_refl eq_refl).
Defined.

(* ================================================================= *)
(** ** Fill-in-the-blank cards *)

Lemma fill_blank_loop_none (keywords words rest : list string) (i : nat) :
  fill_blank_loop keywords words i rest = None <->
  Forall (fun w => fill_candidate keywords w = false) rest.
Proof.
  revert i. induction rest as [|w rest IH]; intros i; simpl.
  - split; [constructor | reflexivity].
  - destruct (fill_candidate keywords w) eqn:Hc.
    + split; [discriminate|].
      intros Hall. inversion Hall; subst. congruence.
    + rewrite IH. split.
      * intros Hall. now constructor.
      * intros Hall. now inversion Hall.
Qed.

Lemma fill_blank_loop_some (keywords words pre rest : list string) (c : card) :
  words = pre ++ rest ->
  Forall (fun w => fill_candidate keywords w = false) pre ->
  fill_blank_loop keywords words (length pre) rest = Some c ->
  exists i word,
    nth_error words i = Some word
    /\ fill_candidate keywords word = true
    /\ (forall j w, j < i -> nth_error words j = Some w ->
                    fill_candidate keywords w = false)
    /\ c = FillBlank
             ("Fill in the blank: " ++ join " " (set_nth i blank words))%string
             word
             ("The correct word is '" ++ word
                ++ "' based on the context.")%string.
Proof.
  revert pre. induction rest as [|w rest IH]; intros pre Hwords Hpre; simpl.
  - discriminate.
  - destruct (fill_candidate keywords w) eqn:Hc.
    + intros Hsome. injection Hsome as <-.
      exists (length pre), w. repeat split.
      * subst words. rewrite nth_error_app2 by lia.
        now rewrite Nat.sub_diag.
      * exact Hc.
      * intros j w' Hj Hnth. subst words.
        rewrite nth_error_app1 in Hnth by exact Hj.
        rewrite Forall_forall in Hpre. apply Hpre.
        eapply nth_error_In. exact Hnth.
    + intros Hsome.
      apply (IH (pre ++ [w])).
      * now rewrite <- app_assoc.
      * apply Forall_app. split; [exact Hpre | now constructor].
      * rewrite length_app. simpl. now rewrite Nat.add_1_r.
Qed.

(** C2. The fill-in-the-blank generator returns no card exactly when the
    sentence has fewer than ten words or none of its words qualifies. A
    card it returns blanks the first word, from the left, whose
    normalized form (lowercased, non-word characters removed) is a
    keyword longer than three characters: the question is the words of
    the sentence with that word replaced by the blank marker, and the
    recorded answer normalizes to the normalized blanked word. *)
Theorem create_fill_blank_first_candidate
        (sentence : string) (keywords : list string) :
  (create_fill_blank_from_sentence sentence keywords = None <->
   length (split sentence) < 10
   \/ Forall (fun w => ~ (mem (normalized w) keywords = true
                          /\ 3 < len (normalized w)))
             (split sentence))
  /\ (forall c,
        create_fill_blank_from_sentence sentence keywords = Some c ->
        exists i word question answer explanation,
          c = FillBlank question answer explanation
          /\ nth_error (split sentence) i = Some word
          /\ mem (normalized word) keywords = true
          /\ 3 < len (normalized word)
          /\ (forall j w, j < i -> nth_error (split sentence) j = Some w ->
                ~ (mem (normalized w) keywords = true
                   /\ 3 < len (normalized w)))
          /\ question
             = ("Fill in the blank: "
                  ++ join " " (set_nth i blank (split sentence)))%string
          /\ normalized answer = normalized word).
Proof.
  assert (Hcand : forall w,
            fill_candidate keywords w = false <->
            ~ (mem (normalized w) keywords = true /\ 3 < len (normalized w))).
  { intros w. unfold fill_candidate, normalized.
    rewrite andb_false_iff, Nat.ltb_ge. split.
    - intros [Hm|Hl] [Hm' Hl']; [congruence | lia].
    - intros Hn. destruct (mem (strip_non_word (lower w)) keywords);
        [right | now left].
      destruct (Nat.le_gt_cases (len (strip_non_word (lower w))) 3);
        [assumption | exfalso; now apply Hn]. }
  unfold create_fill_blank_from_sentence. split.
  - destruct (length (split sentence) <? 10) eqn:Hlen.
    + apply Nat.ltb_lt in Hlen. split; [now left | reflexivity].
    + apply Nat.ltb_ge in Hlen. rewrite fill_blank_loop_none. split.
      * intros Hall. right. rewrite Forall_forall in *.
        intros w Hw. apply Hcand. now apply Hall.
      * intros [Hlt|Hall]; [lia|]. rewrite Forall_forall in *.
        intros w Hw. apply Hcand. now apply Hall.
  - intros c Hc.
    destruct (length (split sentence) <? 10); [discriminate|].
    apply (fill_blank_loop_some keywords (split sentence) []) in Hc;
      [|reflexivity|constructor].
    destruct Hc as (i & word & Hnth & Hword & Hfirst & ->).
    unfold fill_candidate in Hword. apply andb_true_iff in Hword.
    destruct Hword as [Hm Hl]. apply Nat.ltb_lt in Hl.
    exists i, word. do 3 eexists.
    split; [reflexivity|]. split; [exact Hnth|].
    split; [exact Hm|]. split; [exact Hl|].
    split; [|split; reflexivity].
    intros j w Hj Hw. apply Hcand. eapply Hfirst; eassumption.
Qed.

Lemma create_fill_blank_first_candidate_witness :
  create_fill_blank_from_sentence
    "The Cell, is the (Energy) of a b c d e f" ["energy"; "cell"]
  = Some (FillBlank
            "Fill in the blank: The ________ is the (Energy) of a b c d e f"
            "Cell,"
            "The correct word is 'Cell,' based on the context.")
  /\ exists i word,
       nth_error (split "The Cell, is the (Energy) of a b c d e f") i
       = Some word
       /\ normalized "Cell," = normalized word.
Proof.
  assert (Hrun : create_fill_blank_from_sentence
                   "The Cell, is the (Energy) of a b c d e f"
                   ["energy"; "cell"]
                 = Some (FillBlank
                           "Fill in the blank: The ________ is the (Energy) of a b c d e f"
                           "Cell,"
                           "The correct word is 'Cell,' based on the context."))
    by (vm_compute; reflexivity).
  split; [exact Hrun|].
  destruct (proj2 (create_fill_blank_first_candidate
                     "The Cell, is the (Energy) of a b c d e f"
                     ["energy"; "cell"]) _ Hrun)
    as (i & word & q & a & e & Hc & Hnth & _ & _ & _ & _ & Hnorm).
  injection Hc as _ <- _.
  exists i, word. split; [exact Hnth | exact Hnorm].
Defined.

(* ================================================================= *)
(** ** Sentences too short for a true/false card *)

(** C10. On a sentence of fewer than eight whitespace-separated words
    the true/false generator returns no cards at all, whatever the
    keywords, and draws nothing from the random source. *)
Theorem create_true_false_short_sentence
        (nltk : Nltk) {R : Type} `{RandomSource R}
        (sentence : string) (keywords : list string) (g : R) :
  length (split sentence) < 8 ->
  create_true_false_from_sentence nltk sentence keywords g = Ok (None, g).
Proof.
  intros Hlen. unfold create_true_false_from_sentence.
  apply Nat.ltb_lt in Hlen. now rewrite Hlen.
Qed.

Lemma create_true_false_short_sentence_witness :
  create_true_false_from_sentence
    nltk_unavailable "Mitochondria produce energy for the cell"
    ["mitochondria"; "energy"] ([3; 1; 4] : tape)
  = Ok (None, [3; 1; 4]).
Proof.
  apply create_true_false_short_sentence. vm_compute. lia.
Defined.

(* ================================================================= *)
(** ** Texts without enough content *)

Lemma lstrip_length (s : string) : len (lstrip s) <= len s.
Proof.
  induction s as [|c s IH]; simpl; [lia|].
  destruct (isspace_char c); simpl; unfold len in *; lia.
Qed.

Lemma rstrip_length (s : string) : len (rstrip s) <= len s.
Proof.
  unfold len. induction s as [|c s IH]; simpl; [lia|].
  destruct (rstrip s) as [|c' r]; simpl in *.
  - destruct (isspace_char c); simpl; lia.
  - lia.
Qed.

Lemma strip_length (s : string) : len (strip s) <= len s.
Proof.
  unfold strip.
  pose proof (rstrip_length (lstrip s)). pose proof (lstrip_length s). lia.
Qed.

Lemma score_loop_total (nltk : Nltk) (keywords sentences : list string) :
  exists scores, score_loop nltk keywords sentences = Ok scores.
Proof.
  induction sentences as [|s rest [scores IH]]; cbn [score_loop].
  - now exists [].
  - destruct (8 <=? length (split s)).
    + destruct (safe_word_tokenize_total nltk s) as [ws ->].
      rewrite IH. cbn [bind_result]. eexists. reflexivity.
    + now exists scores.
Qed.

Lemma score_loop_short (nltk : Nltk) (keywords sentences : list string) :
  Forall (fun sentence => length (split sentence) < 8) sentences ->
  score_loop nltk keywords sentences = Ok [].
Proof.
  induction 1 as [|s rest Hs _ IH]; cbn [score_loop]; [reflexivity|].
  apply Nat.leb_gt in Hs. now rewrite Hs.
Qed.

Lemma extract_key_sentences_total (nltk : Nltk) (text : string) (N : nat) :
  exists key_sentences keywords,
    extract_key_sentences nltk text N = Ok (key_sentences, keywords).
Proof.
  unfold extract_key_sentences.
  destruct (safe_sent_tokenize_total nltk text) as [ss ->].
  destruct (extract_keywords_total nltk text 20) as [kws ->]. simpl.
  destruct (score_loop_total nltk kws ss) as [scores ->]. simpl. eauto.
Qed.

(** C7. [generate_flashcards] returns the empty deck, without raising
    and without drawing from the random source, whenever the stripped
    text has fewer than 100 characters or no sentence is long enough to
    be selected; in particular for every text of fewer than 100
    characters, whatever the quotas. *)
Theorem generate_flashcards_insufficient_content
        (nltk : Nltk) {R : Type} `{RandomSource R}
        (text : string) (num_mcq num_tf num_fill : nat) (g : R) :
  (len (strip text) < 100 \/ no_sentence_qualifies nltk text ->
   generate_flashcards nltk text num_mcq num_tf num_fill g = Ok ([], g))
  /\ (len text < 100 ->
      generate_flashcards nltk text num_mcq num_tf num_fill g = Ok ([], g)).
Proof.
  assert (Hshort : len (strip text) < 100 ->
            generate_flashcards nltk text num_mcq num_tf num_fill g
            = Ok ([], g)).
  { intros Hlen. unfold generate_flashcards.
    apply Nat.ltb_lt in Hlen. rewrite Hlen, orb_true_r. reflexivity. }
  split.
  - intros [Hlen|Hnone]; [now apply Hshort|].
    unfold generate_flashcards.
    destruct (String.eqb text "" || (len (strip text) <? 100));
      [reflexivity|].
    unfold extract_key_sentences.
    destruct (safe_sent_tokenize_total nltk text) as [ss Hss].
    rewrite Hss.
    destruct (extract_keywords_total nltk text 20) as [kws ->].
    unfold bind, lift. simpl.
    rewrite (score_loop_short nltk kws ss (Hnone ss Hss)). reflexivity.
  - intros Hlen. apply Hshort. pose proof (strip_length text). lia.
Qed.

Lemma generate_flashcards_insufficient_content_witness :
  generate_flashcards nltk_unavailable
    "Cells make energy. Plants use light. Water is wet. Birds can fly. Fish can swim. Dogs can bark. Cats can purr loudly."
    2 2 1 ([5; 7] : tape)
  = Ok ([], [5; 7])
  /\ generate_flashcards nltk_unavailable
       "The mitochondria is the powerhouse of the cell." 2 2 1 ([5; 7] : tape)
     = Ok ([], [5; 7]).
Proof.
  split.
  - apply (proj1 (generate_flashcards_insufficient_content
                    nltk_unavailable _ 2 2 1 ([5; 7] : tape))).
    right. intros sentences Hs. vm_compute in Hs. injection Hs as <-.
    repeat constructor; vm_compute; lia.
  - apply (proj2 (generate_flashcards_insufficient_content
                    nltk_unavailable _ 2 2 1 ([5; 7] : tape))).
    vm_compute. lia.
Defined.

(* ================================================================= *)
(** ** Lists updated in place *)

Lemma set_nth_length {A} (i : nat) (v : A) (l : list A) :
  length (set_nth i v l) = length l.
Proof.
  revert i. induction l as [|x l IH]; intros [|i]; simpl; auto.
Qed.

Lemma nth_error_set_nth_same {A} (i : nat) (v : A) (l : list A) :
  i < length l -> nth_error (set_nth i v l) i = Some v.
Proof.
  revert i. induction l as [|x l IH]; intros [|i]; simpl; intros Hi;
    try lia; [reflexivity|].
  apply IH. lia.
Qed.

Lemma nth_error_set_nth_other {A} (i j : nat) (v : A) (l : list A) :
  i <> j -> nth_error (set_nth i v l) j = nth_error l j.
Proof.
  revert i j. induction l as [|x l IH]; intros [|i] [|j] Hij; simpl;
    try reflexivity; try lia.
  apply IH. lia.
Qed.

Lemma set_nth_incl {A} (i : nat) (v : A) (l : list A) :
  In v l -> incl (set_nth i v l) l.
Proof.
  intros Hv y Hy. apply In_nth_error in Hy. destruct Hy as [k Hk].
  destruct (Nat.eq_dec i k) as [->|Hik].
  - destruct (Nat.lt_ge_cases k (length l)) as [Hlt|Hge].
    + rewrite nth_error_set_nth_same in Hk by exact Hlt.
      injection Hk as <-. exact Hv.
    + assert (Hnone : nth_error (set_nth k v l) k = None).
      { apply nth_error_None. now rewrite set_nth_length. }
      congruence.
  - rewrite nth_error_set_nth_other in Hk by exact Hik.
    eapply nth_error_In. exact Hk.
Qed.

(** Overwriting position [i], which held [a], with [b]. *)
Lemma set_nth_perm {A} (i : nat) (a b : A) (l : list A) :
  nth_error l i = Some a -> Permutation (b :: l) (a :: set_nth i b l).
Proof.
  revert i. induction l as [|x l IH]; intros [|i]; simpl; intros Hnth;
    try discriminate.
  - injection Hnth as ->. apply perm_swap.
  - rewrite perm_swap. rewrite (IH i Hnth). apply perm_swap.
Qed.

(** [x[i], x[j] = x[j], x[i]] permutes the list. *)
Lemma swap_perm {A} (i j : nat) (xi xj : A) (x : list A) :
  nth_error x i = Some xi -> nth_error x j = Some xj ->
  Permutation (set_nth j xi (set_nth i xj x)) x.
Proof.
  intros Hi Hj.
  assert (Hj' : nth_error (set_nth i xj x) j = Some xj).
  { destruct (Nat.eq_dec i j) as [->|Hij].
    - apply nth_error_set_nth_same. apply nth_error_Some. congruence.
    - now rewrite nth_error_set_nth_other. }
  pose proof (set_nth_perm i xi xj x Hi) as H1.
  pose proof (set_nth_perm j xj xi (set_nth i xj x) Hj') as H2.
  apply (Permutation_cons_inv (a := xj)).
  rewrite <- H2. now symmetry.
Qed.

Lemma index_at_lt {A} (l : list A) (i : nat) :
  i < length l -> exists x, index_at l i = Ok x /\ nth_error l i = Some x.
Proof.
  intros Hi. unfold index_at.
  destruct (nth_error l i) as [x|] eqn:Hnth; [now exists x|].
  apply nth_error_None in Hnth. lia.
Qed.

Lemma list_index_spec (l : list string) (w : string) :
  In w l ->
  exists i, list_index l w = Ok i /\ nth_error l i = Some w
            /\ forall j, j < i -> nth_error l j <> Some w.
Proof.
  induction l as [|x l IH]; simpl; intros Hin; [easy|].
  destruct (String.eqb_spec x w) as [->|Hne].
  - exists 0. repeat split. intros j Hj. lia.
  - destruct Hin as [Heq|Hin]; [easy|].
    destruct (IH Hin) as (i & -> & Hnth & Hfirst).
    exists (S i). repeat split; [exact Hnth|].
    intros [|j] Hj; simpl; [congruence|]. apply Hfirst. lia.
Qed.

(* ================================================================= *)
(** ** The random helpers return *)

Lemma bind_run {R A B} (m : Rand R A) (k : A -> Rand R B)
      (g g' : R) (a : A) :
  m g = Ok (a, g') -> bind m k g = k a g'.
Proof. intros Hm. unfold bind. now rewrite Hm. Qed.

Lemma bind_lift {R A B} (a : A) (k : A -> Rand R B) (g : R) :
  bind (lift (Ok a)) k g = k a g.
Proof. reflexivity. Qed.

Lemma bind_raise {R A B} (m : Rand R A) (k : A -> Rand R B)
      (g : R) (e : exn) :
  m g = Raise e -> bind m k g = Raise e.
Proof. intros Hm. unfold bind. now rewrite Hm. Qed.

Section RandomFacts.
Context {R : Type} `{RandomSource R}.

Lemma choice_spec {A} (seq : list A) (g : R) :
  seq <> [] ->
  exists x g', choice seq g = Ok (x, g') /\ In x seq.
Proof.
  intros Hne. destruct seq as [|a seq]; [easy|].
  unfold choice, bind, draw, lift.
  pose proof (randbelow_lt g (length (a :: seq))) as Hlt.
  destruct (randbelow g (length (a :: seq))) as [k g'].
  simpl fst in Hlt.
  destruct (index_at_lt (a :: seq) k) as (x & Hx & Hnth);
    [apply Hlt; simpl; lia|].
  rewrite Hx. exists x, g'. split; [reflexivity|].
  eapply nth_error_In. exact Hnth.
Qed.

Lemma sample_loop_spec {A} (n steps : nat) :
  forall (i : nat) (pool : list A) (g : R),
    length pool = n -> i + steps <= n ->
    exists l g', sample_loop n steps i pool g = Ok (l, g')
                 /\ length l = steps /\ incl l pool.
Proof.
  induction steps as [|steps IH]; intros i pool g Hlen Hle.
  - exists [], g. repeat split. intros x [].
  - cbn [sample_loop]. unfold bind, draw, lift.
    pose proof (randbelow_lt g (n - i)) as Hlt.
    destruct (randbelow g (n - i)) as [j g1]. simpl fst in Hlt.
    assert (Hj : j < n - i) by (apply Hlt; lia).
    destruct (index_at_lt pool j) as (x & -> & Hx); [lia|].
    destruct (index_at_lt pool (n - i - 1)) as (y & -> & Hy); [lia|].
    destruct (IH (S i) (set_nth j y pool) g1) as (l & g' & -> & Hl & Hincl);
      [now rewrite set_nth_length | lia |].
    exists (x :: l), g'. unfold ret. repeat split.
    + simpl. now rewrite Hl.
    + intros z [<-|Hz].
      * eapply nth_error_In. exact Hx.
      * apply Hincl in Hz. revert Hz. apply set_nth_incl.
        eapply nth_error_In. exact Hy.
Qed.

Lemma sample_spec {A} (population : list A) (k : nat) (g : R) :
  k <= length population ->
  exists l g', sample population k g = Ok (l, g')
               /\ length l = k /\ incl l population.
Proof.
  intros Hk. unfold sample.
  destruct (length population <? k) eqn:Hlt;
    [apply Nat.ltb_lt in Hlt; lia|].
  now apply sample_loop_spec.
Qed.

Lemma shuffle_loop_spec {A} (i : nat) :
  forall (x : list A) (g : R),
    i < length x \/ i = 0 ->
    exists l g', shuffle_loop i x g = Ok (l, g') /\ Permutation l x.
Proof.
  induction i as [|i IH]; intros x g Hi.
  - exists x, g. split; reflexivity.
  - cbn [shuffle_loop]. unfold bind, draw, lift.
    destruct Hi as [Hi|Hi]; [|discriminate].
    pose proof (randbelow_lt g (S (S i))) as Hlt.
    destruct (randbelow g (S (S i))) as [j g1]. simpl fst in Hlt.
    assert (Hj : j < S (S i)) by (apply Hlt; lia).
    destruct (index_at_lt x (S i)) as (xi & -> & Hxi); [lia|].
    destruct (index_at_lt x j) as (xj & -> & Hxj); [lia|].
    destruct (IH (set_nth j xi (set_nth (S i) xj x)) g1)
      as (l & g' & -> & Hperm).
    { left. rewrite !set_nth_length. lia. }
    exists l, g'. split; [reflexivity|].
    rewrite Hperm. now apply swap_perm.
Qed.

Lemma shuffle_spec {A} (x : list A) (g : R) :
  exists l g', shuffle x g = Ok (l, g') /\ Permutation l x.
Proof.
  unfold shuffle. apply shuffle_loop_spec.
  destruct x as [|a x]; simpl; [now right | left; lia].
Qed.
End RandomFacts.

(* ================================================================= *)
(** ** Multiple-choice cards *)

Lemma potential_distractors_length (keywords : list string) (target : string) :
  3 <= length (potential_distractors keywords target).
Proof.
  unfold potential_distractors.
  destruct (length _ <? 3) eqn:Hlt.
  - rewrite length_app. simpl. lia.
  - now apply Nat.ltb_ge in Hlt.
Qed.

Lemma replace_first_absent (old new s : string) :
  occurs old s = false -> replace_first old new s = s.
Proof.
  induction s as [|c s IH]; simpl; intros Hocc.
  - apply orb_false_iff in Hocc. destruct Hocc as [-> _]. reflexivity.
  - apply orb_false_iff in Hocc. destruct Hocc as [Hp Hocc].
    cbn [String.prefix] in Hp. rewrite Hp. now rewrite IH.
Qed.

(** What [create_mcq_from_sentence] returns: no card when the sentence
    has no content word; otherwise a card whose answer is a content
    word, whose four options are three members of the distractor pool
    and the answer, shuffled, and whose index is the first position of
    the answer among the options. It never raises. *)
Lemma create_mcq_spec (nltk : Nltk) {R : Type} `{RandomSource R}
      (sentence : string) (keywords words stop_words : list string) (g : R) :
  safe_word_tokenize nltk sentence = Ok words ->
  get_stopwords nltk = Ok stop_words ->
  (filter (content_word stop_words) words = [] /\
   create_mcq_from_sentence nltk sentence keywords g = Ok (None, g))
  \/ (exists target distractors options idx g',
        create_mcq_from_sentence nltk sentence keywords g
        = Ok (Some (Mcq
                 ("Complete the sentence: "
                    ++ replace_first target blank sentence)%string
                 options target idx
                 ("The correct answer is '" ++ target
                    ++ "' based on the context.")%string), g')
        /\ In target (filter (content_word stop_words) words)
        /\ length distractors = 3
        /\ incl distractors (potential_distractors keywords target)
        /\ Permutation options (distractors ++ [target])
        /\ nth_error options idx = Some target
        /\ (forall j, j < idx -> nth_error options j <> Some target)).
Proof.
  intros Hwords Hstop. unfold create_mcq_from_sentence.
  rewrite Hwords, Hstop, !bind_lift.
  destruct (filter (content_word stop_words) words) as [|w cw] eqn:Hcw.
  - left. split; reflexivity.
  - right.
    destruct (choice_spec (w :: cw) g) as (target & g1 & Hchoice & Htarget);
      [easy|].
    rewrite (bind_run _ _ _ _ _ Hchoice).
    pose proof (potential_distractors_length keywords target) as Hpd.
    destruct (sample_spec (potential_distractors keywords target)
                (Nat.min 3 (length (potential_distractors keywords target)))
                g1) as (ds & g2 & Hsample & Hds & Hincl); [lia|].
    rewrite (bind_run _ _ _ _ _ Hsample).
    destruct (shuffle_spec (ds ++ [target]) g2)
      as (options & g3 & Hshuffle & Hperm).
    rewrite (bind_run _ _ _ _ _ Hshuffle).
    assert (Hin : In target options).
    { apply (Permutation_in _ (Permutation_sym Hperm)).
      apply in_or_app. right. now left. }
    destruct (list_index_spec options target Hin)
      as (idx & Hidx & Hnth & Hfirst).
    rewrite Hidx, bind_lift.
    exists target, ds, options, idx, g3.
    repeat split; try assumption. lia.
Qed.

Lemma create_mcq_options_length (nltk : Nltk) {R : Type} `{RandomSource R}
      (sentence : string) (keywords : list string) (g g' : R)
      (q : string) (options : list string) (answer : string) (idx : nat)
      (e : string) :
  create_mcq_from_sentence nltk sentence keywords g
  = Ok (Some (Mcq q options answer idx e), g') ->
  length options = 4 /\ nth_error options idx = Some answer.
Proof.
  intros Hrun.
  destruct (safe_word_tokenize_total nltk sentence) as [words Hwords].
  destruct (get_stopwords_total nltk) as [stop_words Hstop].
  destruct (create_mcq_spec nltk sentence keywords words stop_words g
              Hwords Hstop)
    as [[_ Hnone]|(t & ds & os & i & g2 & Hsome & _ & Hds & _ & Hperm
                   & Hnth & _)].
  - rewrite Hnone in Hrun. discriminate.
  - rewrite Hsome in Hrun. injection Hrun as _ <- <- <- _ _.
    split; [|exact Hnth].
    rewrite (Permutation_length Hperm), length_app, Hds. reflexivity.
Qed.

(** C1. The answer of a multiple-choice card can be drawn a second time
    as a distractor. With fewer than three usable keywords the pool is
    padded with the generic words, among them ["process"]; here
    ["process"] is also the answer, and the card lists it twice. *)
Theorem create_mcq_answer_among_distractors :
  create_mcq_from_sentence nltk_unavailable
    "This process is essential for cellular energy."
    ["energy"; "cellular"] ([1; 4; 0; 0; 0; 0; 0] : tape)
  = Ok (Some (Mcq
          "Complete the sentence: This ________ is essential for cellular energy."
          ["energy"; "model"; "process"; "process"] "process" 2
          "The correct answer is 'process' based on the context."), [])
  /\ count_occ string_dec ["energy"; "model"; "process"; "process"] "process"
     = 2.
Proof.
  split; vm_compute; reflexivity.
Qed.

(** C4. The answer is a lowercased token, and it is looked up in the
    sentence as written: when the sentence spells the word with a
    capital, nothing is replaced, and the question shows the whole
    sentence without a blank marker. *)
Theorem create_mcq_question_without_blank :
  create_mcq_from_sentence nltk_unavailable
    "Mitochondria produce ATP through respiration."
    ["mitochondria"; "respiration"; "produce"; "through"]
    ([0; 0; 0; 0; 0; 0; 0] : tape)
  = Ok (Some (Mcq
          "Complete the sentence: Mitochondria produce ATP through respiration."
          ["through"; "produce"; "mitochondria"; "respiration"]
          "mitochondria" 2
          "The correct answer is 'mitochondria' based on the context."), [])
  /\ occurs blank
       "Complete the sentence: Mitochondria produce ATP through respiration."
     = false
  /\ occurs "mitochondria" "Mitochondria produce ATP through respiration."
     = false.
Proof.
  repeat split; vm_compute; reflexivity.
Qed.

(* ================================================================= *)
(** ** True/false cards *)

Lemma tf_content_words_spec (nltk : Nltk) (stop_words words : list string) :
  get_stopwords nltk = Ok stop_words ->
  tf_content_words nltk words = Ok (filter (tf_content_word stop_words) words).
Proof.
  intros Hstop. induction words as [|w rest IH]; cbn [tf_content_words].
  - reflexivity.
  - rewrite Hstop, IH. cbn [bind_result filter]. unfold tf_content_word.
    destruct (negb (mem (lower w) stop_words) && (3 <? len w)); reflexivity.
Qed.

Section TrueFalseFacts.
Context {R : Type} `{RandomSource R}.

(** The loop over the content words: one keyword is drawn per word,
    and the first word whose draw differs from it is substituted. *)
Lemma true_false_loop_spec (sentence : string) (keywords : list string) :
  keywords <> [] ->
  forall (content_words : list string) (g : R),
  exists cards g',
    true_false_loop sentence keywords content_words g = Ok (cards, g')
    /\ ((cards = [true_card sentence]
         /\ Forall (matches_keyword keywords) content_words)
        \/ (exists skipped word rest replacement,
              content_words = skipped ++ word :: rest
              /\ Forall (matches_keyword keywords) skipped
              /\ In replacement keywords
              /\ lower replacement <> lower word
              /\ cards = [true_card sentence;
                          false_card
                            (replace_first word replacement sentence)])).
Proof.
  intros Hkw. induction content_words as [|word rest IH]; intros g.
  - exists [true_card sentence], g. split; [reflexivity|].
    left. split; [reflexivity | constructor].
  - cbn [true_false_loop].
    destruct (choice_spec keywords g Hkw) as (k & g1 & Hchoice & Hk).
    rewrite (bind_run _ _ _ _ _ Hchoice).
    destruct (String.eqb_spec (lower k) (lower word)) as [Heq|Hne];
      cbn [negb].
    + destruct (IH g1) as (cards & g' & Hrun & Hcards).
      exists cards, g'. split; [exact Hrun|].
      assert (Hword : matches_keyword keywords word) by now exists k.
      destruct Hcards as [[-> Hall]|(sk & w & rs & r & -> & Hsk & Hr & Hd & ->)].
      * left. split; [reflexivity | now constructor].
      * right. exists (word :: sk), w, rs, r.
        repeat split; try assumption. now constructor.
    + exists [true_card sentence;
              false_card (replace_first word k sentence)], g1.
      split; [reflexivity|].
      right. exists [], word, rest, k. repeat split; try assumption.
      constructor.
Qed.
End TrueFalseFacts.

(** The outcome of [create_true_false_from_sentence] on a sentence long
    enough: which cards, and under which conditions on the content words
    and the keywords. *)
Lemma create_true_false_spec
        (nltk : Nltk) {R : Type} `{RandomSource R}
        (sentence : string) (keywords stop_words : list string) (g : R) :
  8 <= length (split sentence) ->
  get_stopwords nltk = Ok stop_words ->
  let content_words := filter (tf_content_word stop_words) (split sentence) in
  exists cards g',
    create_true_false_from_sentence nltk sentence keywords g
    = Ok (Some cards, g')
    /\ ((cards = [true_card sentence]
         /\ (content_words = [] \/ keywords = []
             \/ Forall (matches_keyword keywords) content_words))
        \/ (exists skipped word rest replacement,
              content_words = skipped ++ word :: rest
              /\ Forall (matches_keyword keywords) skipped
              /\ In replacement keywords
              /\ lower replacement <> lower word
              /\ cards = [true_card sentence;
                          false_card
                            (replace_first word replacement sentence)]))
    /\ (content_words = [] \/ keywords = [] -> cards = [true_card sentence])
    /\ (keywords <> [] ->
        Exists (fun w => ~ matches_keyword keywords w) content_words ->
        cards <> [true_card sentence]).
Proof.
  intros Hlen Hstop content_words.
  unfold create_true_false_from_sentence.
  apply Nat.ltb_ge in Hlen. rewrite Hlen.
  rewrite (tf_content_words_spec nltk stop_words _ Hstop), bind_lift.
  fold content_words.
  destruct content_words as [|w cw] eqn:Hcw.
  { exists [true_card sentence], g. split; [reflexivity|].
    split; [left; split; [reflexivity | now left]|].
    split; [reflexivity|].
    intros _ Hex. inversion Hex. }
  destruct keywords as [|k kws] eqn:Hkws.
  { exists [true_card sentence], g. split; [reflexivity|].
    split; [left; split; [reflexivity | right; now left]|].
    split; [reflexivity|]. intros Hne. now contradiction Hne. }
  destruct (true_false_loop_spec sentence (k :: kws) ltac:(easy) (w :: cw) g)
    as (cards & g' & Hrun & Hcards).
  rewrite (bind_run _ _ _ _ _ Hrun).
  exists cards, g'. split; [reflexivity|].
  split; [|split].
  - destruct Hcards as [[-> Hall]|Hfalse].
    + left. split; [reflexivity | right; now right].
    + now right.
  - intros [Hc|Hc]; discriminate Hc.
  - intros _ Hex Hcards'.
    destruct Hcards as [[_ Hall]|(sk & w' & rs & r & _ & _ & _ & _ & ->)];
      [|discriminate Hcards'].
    apply Exists_exists in Hex. destruct Hex as (x & Hx & Hnot).
    rewrite Forall_forall in Hall. now apply Hnot, Hall.
Qed.



Section TrueFalseDraws.
Context {R : Type} `{RandomSource R}.

End TrueFalseDraws.





(** The word is not tried again: the next draw would have been
    ["energy"], and it is left on the tape. *)
Example create_true_false_single_draw :
  create_true_false_from_sentence nltk_unavailable
    "The cell is in or on to it" ["cell"; "energy"] ([0; 1] : tape)
  = Ok (Some [true_card "The cell is in or on to it"], [1])
  /\ successive_choices ["cell"; "energy"] 1 ([0; 1] : tape)
     = [("cell", [1])]
  /\ choice ["cell"; "energy"] ([1] : tape) = Ok ("energy", []).
Proof.
  split; [vm_compute; reflexivity|].
  split; vm_compute; reflexivity.
Qed.

(** In the other direction: the only keyword, ["cell"], equals a content
    word of the sentence, so that no keyword differs from every content
    word; a false card is returned all the same, in which ["cell"]
    replaces the first content word. *)
Example create_true_false_false_card_despite_match :
  create_true_false_from_sentence nltk_unavailable
    "The mitochondria is the powerhouse of the cell now"
    ["cell"] ([] : tape)
  = Ok (Some [true_card "The mitochondria is the powerhouse of the cell now";
              false_card "The cell is the powerhouse of the cell now"], [])
  /\ tf_content_words nltk_unavailable
       (split "The mitochondria is the powerhouse of the cell now")
     = Ok ["mitochondria"; "powerhouse"; "cell"]
  /\ ~ (exists k, In k ["cell"]
                  /\ forall w, In w ["mitochondria"; "powerhouse"; "cell"] ->
                               lower k <> lower w).
Proof.
  split; [vm_compute; reflexivity|].
  split; [vm_compute; reflexivity|].
  intros (k & [<-|[]] & Hk).
  apply (Hk "cell"); [simpl; tauto | reflexivity].
Qed.

(* ================================================================= *)
(** ** Deck assembly *)

Lemma filter_all {A} (p : A -> bool) (l : list A) :
  Forall (fun x => p x = true) l -> filter p l = l.
Proof.
  induction 1 as [|x l Hx _ IH]; simpl; [reflexivity|].
  now rewrite Hx, IH.
Qed.

Lemma filter_none {A} (p : A -> bool) (l : list A) :
  Forall (fun x => p x = false) l -> filter p l = [].
Proof.
  induction 1 as [|x l Hx _ IH]; simpl; [reflexivity|].
  now rewrite Hx, IH.
Qed.

Lemma mcq_card_of_is_mcq (sentence : string) (c : card) :
  mcq_card_of sentence c -> is_mcq c = true.
Proof. intros (t & os & i & e & ->). reflexivity. Qed.

Lemma tf_cards_of_length (sentence : string) (cs : list card) :
  tf_cards_of sentence cs -> 1 <= length cs.
Proof. intros [->|(w & r & ->)]; simpl; lia. Qed.

Lemma tf_cards_of_kind (sentence : string) (cs : list card) :
  tf_cards_of sentence cs ->
  Forall (fun c => is_mcq c = false /\ is_fill_blank c = false) cs.
Proof. intros [->|(w & r & ->)]; repeat constructor. Qed.

Lemma create_fill_blank_kind (sentence : string) (keywords : list string)
      (c : card) :
  create_fill_blank_from_sentence sentence keywords = Some c ->
  is_fill_blank c = true.
Proof.
  unfold create_fill_blank_from_sentence.
  destruct (length (split sentence) <? 10); [discriminate|].
  intros Hc.
  apply (fill_blank_loop_some keywords (split sentence) []) in Hc;
    [|reflexivity|constructor].
  destruct Hc as (i & w & _ & _ & _ & ->). reflexivity.
Qed.

Lemma fill_cards_of_kind (keywords : list string) (sentences : list string) :
  Forall (fun c => is_fill_blank c = true)
         (flat_map (fill_cards_of keywords) sentences).
Proof.
  induction sentences as [|s rest IH]; simpl; [constructor|].
  apply Forall_app. split; [|exact IH].
  unfold fill_cards_of.
  destruct (create_fill_blank_from_sentence s keywords) as [c|] eqn:Hc;
    [|constructor].
  constructor; [|constructor]. now apply create_fill_blank_kind in Hc.
Qed.

Section AssemblyFacts.
Context (nltk : Nltk) {R : Type} `{RandomSource R}.

(** The MCQ loop appends one card per eligible sentence, in order,
    until the quota is reached. *)
Lemma mcq_loop_spec (keywords : list string) (num_mcq : nat) :
  forall (sentences : list string) (all_cards : list card) (g : R),
    Forall (fun c => is_mcq c = true) all_cards ->
    length all_cards < num_mcq ->
    exists mcqs g',
      mcq_loop nltk keywords num_mcq sentences all_cards g
      = Ok (all_cards ++ mcqs, g')
      /\ Forall2 mcq_card_of
                 (firstn (num_mcq - length all_cards)
                         (filter (mcq_eligible nltk) sentences))
                 mcqs.
Proof.
  induction sentences as [|s rest IH]; intros all_cards g Hall Hlt.
  - exists [], g. cbn [mcq_loop filter]. rewrite app_nil_r, firstn_nil.
    split; [reflexivity | constructor].
  - cbn [mcq_loop filter].
    destruct (safe_word_tokenize_total nltk s) as [words Hwords].
    destruct (get_stopwords_total nltk) as [stop_words Hstop].
    unfold mcq_eligible at 1. rewrite Hwords, Hstop.
    destruct (create_mcq_spec nltk s keywords words stop_words g
                Hwords Hstop)
      as [[Hcw Hnone]|(t & ds & os & i & g1 & Hsome & Hin & _)].
    + rewrite (bind_run _ _ _ _ _ Hnone), Hcw. now apply IH.
    + rewrite (bind_run _ _ _ _ _ Hsome).
      destruct (filter (content_word stop_words) words) as [|w cw];
        [destruct Hin|].
      set (c := Mcq _ os t i _).
      assert (Hc : mcq_card_of s c) by (now exists t, os, i; eexists).
      assert (Hall' : Forall (fun c => is_mcq c = true) (all_cards ++ [c])).
      { apply Forall_app. split; [exact Hall | now repeat constructor]. }
      rewrite (filter_all _ _ Hall'), length_app. cbn [length].
      destruct (num_mcq <=? length all_cards + 1) eqn:Hq.
      * apply Nat.leb_le in Hq. exists [c], g1.
        split; [reflexivity|].
        replace (num_mcq - length all_cards) with 1 by lia.
        cbn [firstn]. now repeat constructor.
      * apply Nat.leb_gt in Hq.
        destruct (IH (all_cards ++ [c]) g1 Hall') as (mcqs & g' & Hrun & Hf).
        { rewrite length_app. simpl. lia. }
        exists (c :: mcqs), g'. split.
        -- rewrite Hrun, <- app_assoc. reflexivity.
        -- rewrite length_app in Hf. cbn [length] in Hf.
           replace (num_mcq - length all_cards)
             with (S (num_mcq - (length all_cards + 1))) by lia.
           cbn [firstn]. now constructor.
Qed.

(** The true/false loop takes the cards of one sentence after the
    other and stops at the quota, cutting the last pair if needed. *)
Lemma tf_loop_spec (keywords : list string) (num_tf : nat) :
  forall (sentences : list string) (tf_count : nat)
         (all_cards : list card) (g : R),
    Forall (fun s => 8 <= length (split s)) sentences ->
    tf_count <= num_tf ->
    exists tf_lists g',
      tf_loop nltk keywords num_tf sentences tf_count all_cards g
      = Ok (all_cards ++ firstn (num_tf - tf_count) (concat tf_lists), g')
      /\ Forall2 tf_cards_of (firstn (length tf_lists) sentences) tf_lists
      /\ (length tf_lists = length sentences
          \/ num_tf - tf_count <= length (concat tf_lists)).
Proof.
  induction sentences as [|s rest IH];
    intros tf_count all_cards g Hlong Hle.
  - exists [], g. cbn [tf_loop concat]. rewrite firstn_nil, app_nil_r.
    split; [reflexivity|]. split; [constructor | now left].
  - cbn [tf_loop].
    destruct (num_tf <=? tf_count) eqn:Hq.
    + apply Nat.leb_le in Hq. exists [], g.
      cbn [concat]. rewrite firstn_nil, app_nil_r.
      split; [reflexivity|]. split; [constructor|].
      right. simpl. lia.
    + apply Nat.leb_gt in Hq.
      inversion Hlong as [|? ? Hs Hrest]; subst.
      destruct (get_stopwords_total nltk) as [stop_words Hstop].
      destruct (create_true_false_spec nltk s keywords stop_words g
                  Hs Hstop)
        as (cs & g1 & Hrun & Hcards & _).
      assert (Hcs : tf_cards_of s cs).
      { destruct Hcards as [[-> _]|(sk & w & rs & r & _ & _ & _ & _ & ->)];
          [now left | right; now exists w, r]. }
      rewrite (bind_run _ _ _ _ _ Hrun).
      pose proof (tf_cards_of_length s cs Hcs) as Hcslen.
      destruct cs as [|q qs]; [simpl in Hcslen; lia|].
      set (taken := firstn (num_tf - tf_count) (q :: qs)).
      assert (Htaken : length taken <= num_tf - tf_count)
        by apply firstn_le_length.
      destruct (IH (tf_count + length taken) (all_cards ++ taken) g1 Hrest)
        as (tls & g' & Hloop & Hf2 & Hstop'); [lia|].
      exists ((q :: qs) :: tls), g'. split; [|split].
      * rewrite Hloop, <- app_assoc. f_equal. f_equal.
        cbn [concat]. rewrite firstn_app.
        unfold taken. rewrite length_firstn. f_equal.
        destruct (Nat.le_gt_cases (length (q :: qs)) (num_tf - tf_count))
          as [Hfit|Hcut];
          [rewrite Nat.min_r by exact Hfit; now rewrite Nat.sub_add_distr|].
        replace (num_tf - (tf_count + Nat.min (num_tf - tf_count)
                                              (length (q :: qs))))
          with 0 by lia.
        replace (num_tf - tf_count - length (q :: qs)) with 0 by lia.
        reflexivity.
      * cbn [length firstn]. now constructor.
      * cbn [length concat]. rewrite length_app.
        destruct Hstop' as [Hall|Hquota]; [left; lia | right].
        unfold taken in Hquota. rewrite length_firstn in Hquota.
        cbn [length] in *. lia.
Qed.

(** The fill-in-the-blank loop appends the card of every sentence that
    has one, in order, until the quota is reached. *)
Lemma fill_loop_spec (keywords : list string) (num_fill : nat)
      (base : list card) :
  Forall (fun c => is_fill_blank c = false) base ->
  forall (sentences : list string) (fills : list card),
    Forall (fun c => is_fill_blank c = true) fills ->
    fill_loop keywords num_fill sentences (base ++ fills)
    = base ++ fills
           ++ firstn (num_fill - length fills)
                     (flat_map (fill_cards_of keywords) sentences).
Proof.
  intros Hbase. induction sentences as [|s rest IH]; intros fills Hfills.
  - cbn [fill_loop flat_map]. now rewrite firstn_nil, app_nil_r.
  - cbn [fill_loop flat_map].
    rewrite filter_app, (filter_none _ _ Hbase), (filter_all _ _ Hfills).
    cbn [app].
    destruct (num_fill <=? length fills) eqn:Hq.
    + apply Nat.leb_le in Hq.
      replace (num_fill - length fills) with 0 by lia.
      cbn [firstn]. now rewrite app_nil_r.
    + apply Nat.leb_gt in Hq. unfold fill_cards_of at 1.
      destruct (create_fill_blank_from_sentence s keywords) as [c|] eqn:Hc.
      * rewrite <- app_assoc.
        rewrite (IH (fills ++ [c])).
        -- rewrite length_app. cbn [length app].
           replace (num_fill - length fills)
             with (S (num_fill - (length fills + 1))) by lia.
           cbn [firstn]. now rewrite <- app_assoc.
        -- apply Forall_app. split; [exact Hfills|].
           constructor; [|constructor].
           now apply create_fill_blank_kind in Hc.
      * cbn [app]. now apply IH.
Qed.
End AssemblyFacts.

Lemma score_loop_long (nltk : Nltk) (keywords : list string) :
  forall (sentences : list string) (scores : list (string * nat)),
    score_loop nltk keywords sentences = Ok scores ->
    Forall (fun p => 8 <= length (split (fst p))) scores.
Proof.
  induction sentences as [|s rest IH]; intros scores; cbn [score_loop].
  - intros Hs. injection Hs as <-. constructor.
  - destruct (8 <=? length (split s)) eqn:Hlen; [|apply IH].
    destruct (safe_word_tokenize_total nltk s) as [ws ->].
    cbn [bind_result].
    destruct (score_loop nltk keywords rest) as [scores'|e];
      cbn [bind_result]; [|discriminate].
    intros Hs. injection Hs as <-.
    constructor; [now apply Nat.leb_le in Hlen | now apply IH].
Qed.

Lemma extract_key_sentences_long (nltk : Nltk) (text : string) (N : nat)
      (key_sentences keywords : list string) :
  extract_key_sentences nltk text N = Ok (key_sentences, keywords) ->
  Forall (fun s => 8 <= length (split s)) key_sentences.
Proof.
  unfold extract_key_sentences.
  destruct (safe_sent_tokenize nltk text) as [ss|e]; [|discriminate].
  destruct (extract_keywords nltk text 20) as [kws|e]; [|discriminate].
  cbn [bind_result].
  destruct (score_loop nltk kws ss) as [scores|e] eqn:Hscores;
    [|discriminate].
  cbn [bind_result]. intros Hks. injection Hks as <- <-.
  apply score_loop_long in Hscores.
  rewrite Forall_forall in *. intros s Hs.
  apply in_map_iff in Hs. destruct Hs as [p [<- Hp]].
  apply Hscores.
  apply (Permutation_in _ (sorted_desc_perm snd scores)).
  rewrite <- (firstn_skipn N (sorted_desc snd scores)).
  apply in_or_app. now left.
Qed.

Section GenerateFacts.
Context (nltk : Nltk) {R : Type} `{RandomSource R}.

(** The three loops in a row. *)
Lemma assemble_spec (key_sentences keywords : list string)
      (num_mcq num_tf num_fill : nat) (g : R) :
  Forall (fun s => 8 <= length (split s)) key_sentences ->
  exists mcqs tf_lists g',
    assemble nltk key_sentences keywords num_mcq num_tf num_fill g
    = Ok (mcqs ++ firstn num_tf (concat tf_lists)
               ++ firstn num_fill
                         (flat_map (fill_cards_of keywords) key_sentences),
          g')
    /\ Forall2 mcq_card_of
               (firstn num_mcq
                       (filter (mcq_eligible nltk)
                               (firstn (num_mcq * 2) key_sentences)))
               mcqs
    /\ Forall2 tf_cards_of (firstn (length tf_lists) key_sentences) tf_lists
    /\ (length tf_lists = length key_sentences
        \/ num_tf <= length (concat tf_lists)).
Proof.
  intros Hlong. unfold assemble.
  assert (Hmcq : exists mcqs g1,
             mcq_loop nltk keywords num_mcq
                      (firstn (num_mcq * 2) key_sentences) [] g
             = Ok (mcqs, g1)
             /\ Forall2 mcq_card_of
                        (firstn num_mcq
                                (filter (mcq_eligible nltk)
                                        (firstn (num_mcq * 2) key_sentences)))
                        mcqs).
  { destruct num_mcq as [|n].
    - exists [], g. split; [reflexivity | constructor].
    - destruct (mcq_loop_spec nltk keywords (S n)
                  (firstn (S n * 2) key_sentences) [] g)
        as (mcqs & g1 & Hrun & Hf); [constructor | simpl; lia|].
      exists mcqs, g1. split; [exact Hrun|].
      cbn [length] in Hf. now rewrite Nat.sub_0_r in Hf. }
  destruct Hmcq as (mcqs & g1 & Hrun1 & Hmcqs).
  rewrite (bind_run _ _ _ _ _ Hrun1).
  destruct (tf_loop_spec nltk keywords num_tf key_sentences 0 mcqs g1
              Hlong (Nat.le_0_l _))
    as (tls & g2 & Hrun2 & Htls & Hstop).
  rewrite Nat.sub_0_r in Hrun2, Hstop.
  rewrite (bind_run _ _ _ _ _ Hrun2).
  exists mcqs, tls, g2. unfold ret.
  split; [|now repeat split].
  f_equal. f_equal.
  rewrite <- (app_nil_r (mcqs ++ firstn num_tf (concat tls))) at 1.
  rewrite fill_loop_spec; [|  |constructor].
  - cbn [length app]. now rewrite Nat.sub_0_r, <- app_assoc.
  - apply Forall_app. split.
    + clear -Hmcqs. induction Hmcqs as [|s c ss cs Hc _ IH];
        constructor; [|exact IH].
      destruct Hc as (t & os & i & e & ->). reflexivity.
    + assert (Hkind : Forall (fun c => is_fill_blank c = false)
                             (concat tls)).
      { clear -Htls. induction Htls as [|s cs ss css Hcs _ IH]; simpl;
          [constructor|].
        apply Forall_app. split; [|exact IH].
        apply tf_cards_of_kind in Hcs.
        rewrite Forall_forall in *. intros c Hc. now apply Hcs. }
      rewrite Forall_forall in *. intros c Hc. apply Hkind.
      rewrite <- (firstn_skipn num_tf (concat tls)).
      apply in_or_app. now left.
Qed.

(** The deck of [generate_flashcards] on a text that passes the length
    guard: a permutation of the assembled cards, none of which the
    final truncation removes. *)
Lemma generate_flashcards_spec (text : string)
      (num_mcq num_tf num_fill : nat) (g : R)
      (key_sentences keywords : list string) :
  String.eqb text "" || (len (strip text) <? 100) = false ->
  extract_key_sentences nltk text 25 = Ok (key_sentences, keywords) ->
  exists mcqs tf_lists deck g',
    generate_flashcards nltk text num_mcq num_tf num_fill g = Ok (deck, g')
    /\ Forall2 mcq_card_of
               (firstn num_mcq
                       (filter (mcq_eligible nltk)
                               (firstn (num_mcq * 2) key_sentences)))
               mcqs
    /\ Forall2 tf_cards_of (firstn (length tf_lists) key_sentences) tf_lists
    /\ (length tf_lists = length key_sentences
        \/ num_tf <= length (concat tf_lists))
    /\ Permutation deck
         (mcqs ++ firstn num_tf (concat tf_lists)
               ++ firstn num_fill
                         (flat_map (fill_cards_of keywords) key_sentences))
    /\ length deck <= num_mcq + num_tf + num_fill.
Proof.
  intros Hguard Hks. unfold generate_flashcards.
  rewrite Hguard, Hks, bind_lift.
  destruct key_sentences as [|s ks] eqn:Hpool.
  { exists [], [], [], g. split; [reflexivity|].
    rewrite firstn_nil. cbn [filter firstn length concat flat_map app].
    rewrite !firstn_nil.
    split; [constructor|]. split; [constructor|].
    split; [now left|]. split; [constructor | simpl; lia]. }
  rewrite <- Hpool in *.
  pose proof (extract_key_sentences_long nltk text 25 _ _ Hks) as Hlong.
  destruct (assemble_spec key_sentences keywords num_mcq num_tf num_fill g
              Hlong)
    as (mcqs & tls & g1 & Hrun & Hmcqs & Htls & Hstop).
  replace (match key_sentences with
           | [] => ret []
           | _ :: _ =>
               all_cards <- assemble nltk key_sentences keywords
                                     num_mcq num_tf num_fill ;;
               shuffled <- shuffle all_cards ;;
               ret (firstn (num_mcq + num_tf + num_fill) shuffled)
           end)
    with (all_cards <- assemble nltk key_sentences keywords
                                num_mcq num_tf num_fill ;;
          shuffled <- shuffle all_cards ;;
          ret (firstn (num_mcq + num_tf + num_fill) shuffled))
    by (rewrite Hpool; reflexivity).
  rewrite (bind_run _ _ _ _ _ Hrun).
  set (all_cards := mcqs ++ _) in *.
  destruct (shuffle_spec all_cards g1) as (shuffled & g2 & Hsh & Hperm).
  rewrite (bind_run _ _ _ _ _ Hsh). unfold ret.
  assert (Hlen : length shuffled <= num_mcq + num_tf + num_fill).
  { rewrite (Permutation_length Hperm). unfold all_cards.
    rewrite !length_app.
    pose proof (Forall2_length Hmcqs) as Hm.
    pose proof (firstn_le_length num_mcq
                  (filter (mcq_eligible nltk)
                          (firstn (num_mcq * 2) key_sentences))).
    pose proof (firstn_le_length num_tf (concat tls)).
    pose proof (firstn_le_length num_fill
                  (flat_map (fill_cards_of keywords) key_sentences)).
    lia. }
  rewrite firstn_all2 by exact Hlen.
  exists mcqs, tls, shuffled, g2. now repeat split.
Qed.
End GenerateFacts.

(** C6, as the code has it. On a text that passes the length guard, with
    [key_sentences] the ranked pool, the deck is made as follows, without
    raising. Multiple-choice cards are attempted on the first
    [2 * num_mcq] ranked sentences only: one card for each of the first
    [num_mcq] sentences of that window that have a content word, in rank
    order. True/false cards are taken sentence after sentence, in rank
    order, until [num_tf] cards are reached or the pool is exhausted.
    Fill-in-the-blank cards are the cards of the first [num_fill]
    sentences of the pool that have one. No sentence is visited twice for
    a type. The deck is a permutation of these cards, the truncation
    removes none of them, and the deck has at most
    [num_mcq + num_tf + num_fill] cards. *)
Theorem generate_flashcards_assembly
        (nltk : Nltk) {R : Type} `{RandomSource R}
        (text : string) (num_mcq num_tf num_fill : nat) (g : R)
        (key_sentences keywords : list string) :
  String.eqb text "" || (len (strip text) <? 100) = false ->
  extract_key_sentences nltk text 25 = Ok (key_sentences, keywords) ->
  exists mcqs tf_lists deck g',
    generate_flashcards nltk text num_mcq num_tf num_fill g = Ok (deck, g')
    /\ Forall2 mcq_card_of
               (firstn num_mcq
                       (filter (mcq_eligible nltk)
                               (firstn (num_mcq * 2) key_sentences)))
               mcqs
    /\ Forall2 tf_cards_of (firstn (length tf_lists) key_sentences) tf_lists
    /\ (length tf_lists = length key_sentences
        \/ num_tf <= length (concat tf_lists))
    /\ Permutation deck
         (mcqs ++ firstn num_tf (concat tf_lists)
               ++ firstn num_fill
                         (flat_map (fill_cards_of keywords) key_sentences))
    /\ length deck <= num_mcq + num_tf + num_fill.
Proof.
  intros Hguard Hks. now apply generate_flashcards_spec.
Qed.

Lemma generate_flashcards_assembly_witness :
  exists deck g',
    generate_flashcards nltk_unavailable
      "The mitochondria is the powerhouse of the living cell in every organism on earth. Mitochondria produce energy for the cell through a process called cellular respiration every day."
      1 2 1 ([3; 1; 4; 1; 5; 9; 2; 6; 5; 3; 5; 8; 9; 7; 9] : tape)
    = Ok (deck, g')
    /\ length deck <= 1 + 2 + 1.
Proof.
  destruct (generate_flashcards_assembly nltk_unavailable
              "The mitochondria is the powerhouse of the living cell in every organism on earth. Mitochondria produce energy for the cell through a process called cellular respiration every day."
              1 2 1 ([3; 1; 4; 1; 5; 9; 2; 6; 5; 3; 5; 8; 9; 7; 9] : tape)
              ["Mitochondria produce energy for the cell through a process called cellular respiration every day.";
               "The mitochondria is the powerhouse of the living cell in every organism on earth."]
              ["mitochondria"; "cell"; "every"; "powerhouse"; "living";
               "organism"; "produce"; "energy"; "through"; "process";
               "called"; "cellular"; "respiration"])
    as (mcqs & tls & deck & g' & Hrun & _ & _ & _ & _ & Hlen).
  - vm_compute. reflexivity.
  - vm_compute. reflexivity.
  - exists deck, g'. split; [exact Hrun | exact Hlen].
Defined.

(** The claim C6 as it was stated fails for the multiple-choice quota.
    The pool has three sentences, the first two without a content word;
    with a quota of one card only the first two are attempted, and the
    deck is empty although the third sentence yields a card. *)
Lemma generate_flashcards_mcq_window :
  extract_key_sentences nltk_unavailable
    "Alpha bravo charlie delta echo foxtrot golf. Hotel india juliet kilo lima mike november. Oscar papa quebec romeo sierra tango uniform. Victor whiskey xray yankee zulu able baker. It is on at to by of in. We do go up so no or as. Zebra is on at to by of in."
    25
  = Ok (["It is on at to by of in."; "We do go up so no or as.";
         "Zebra is on at to by of in."],
        ["alpha"; "bravo"; "charlie"; "delta"; "echo"; "foxtrot"; "hotel";
         "india"; "juliet"; "kilo"; "lima"; "mike"; "oscar"; "papa";
         "quebec"; "romeo"; "sierra"; "tango"; "victor"; "whiskey"])
  /\ generate_flashcards nltk_unavailable
       "Alpha bravo charlie delta echo foxtrot golf. Hotel india juliet kilo lima mike november. Oscar papa quebec romeo sierra tango uniform. Victor whiskey xray yankee zulu able baker. It is on at to by of in. We do go up so no or as. Zebra is on at to by of in."
       1 0 0 ([] : tape)
     = Ok ([], [])
  /\ create_mcq_from_sentence nltk_unavailable
       "Zebra is on at to by of in."
       ["alpha"; "bravo"; "charlie"; "delta"; "echo"; "foxtrot"; "hotel";
        "india"; "juliet"; "kilo"; "lima"; "mike"; "oscar"; "papa";
        "quebec"; "romeo"; "sierra"; "tango"; "victor"; "whiskey"]
       ([] : tape)
     = Ok (Some (Mcq "Complete the sentence: Zebra is on at to by of in."
                     ["whiskey"; "victor"; "zebra"; "alpha"] "zebra" 2
                     "The correct answer is 'zebra' based on the context."),
           []).
Proof.
  repeat split; vm_compute; reflexivity.
Qed.

(* ================================================================= *)
(** ** Two runs of the generator *)

Section TwoRuns.
Context {R1 R2 : Type} `{RandomSource R1} `{RandomSource R2}.
Variable sim : R1 -> R2 -> Prop.
Hypothesis Hsim : simulation sim.

Lemma same_ret {A} (a : A) : same_run sim (ret a) (ret a).
Proof. intros g1 g2 Hg. now split. Qed.

Lemma same_raise {A} (e : exn) :
  same_run sim (raise (A := A) e) (raise (A := A) e).
Proof. intros g1 g2 Hg. reflexivity. Qed.

Lemma same_lift {A} (r : result A) : same_run sim (lift r) (lift r).
Proof. intros g1 g2 Hg. unfold lift. destruct r; simpl; auto. Qed.

Lemma same_bind {A B} (m1 : Rand R1 A) (m2 : Rand R2 A)
      (k1 : A -> Rand R1 B) (k2 : A -> Rand R2 B) :
  same_run sim m1 m2 ->
  (forall a, same_run sim (k1 a) (k2 a)) ->
  same_run sim (bind m1 k1) (bind m2 k2).
Proof.
  intros Hm Hk g1 g2 Hg. unfold bind.
  specialize (Hm g1 g2 Hg). unfold same_outcome in Hm.
  destruct (m1 g1) as [[a1 g1']|e1], (m2 g2) as [[a2 g2']|e2];
    try contradiction.
  - destruct Hm as [-> Hg']. now apply Hk.
  - exact Hm.
Qed.

Lemma same_draw (n : nat) : same_run sim (draw n) (draw n).
Proof.
  intros g1 g2 Hg. unfold draw. destruct (Hsim g1 g2 n Hg) as [Hv Hg'].
  destruct (randbelow g1 n) as [k1 g1'], (randbelow g2 n) as [k2 g2'].
  simpl in *. now split.
Qed.

Ltac same_step :=
  first [ apply same_ret | apply same_raise | apply same_lift
        | apply same_draw ].

Ltac same_bind_step :=
  apply same_bind; [try same_step | intros ?].

Lemma same_choice {A} (seq : list A) : same_run sim (choice seq) (choice seq).
Proof.
  unfold choice. destruct seq; [apply same_raise|].
  same_bind_step. same_step.
Qed.

Lemma same_sample_loop {A} (n steps : nat) :
  forall (i : nat) (pool : list A),
    same_run sim (sample_loop n steps i pool) (sample_loop n steps i pool).
Proof.
  induction steps as [|steps IH]; intros i pool; cbn [sample_loop].
  - apply same_ret.
  - do 3 same_bind_step.
    apply same_bind; [apply IH | intros ?; apply same_ret].
Qed.

Lemma same_sample {A} (population : list A) (k : nat) :
  same_run sim (sample population k) (sample population k).
Proof.
  unfold sample. destruct (length population <? k).
  - apply same_raise.
  - apply same_sample_loop.
Qed.

Lemma same_shuffle_loop {A} (i : nat) :
  forall x : list A, same_run sim (shuffle_loop i x) (shuffle_loop i x).
Proof.
  induction i as [|i IH]; intros x; cbn [shuffle_loop].
  - apply same_ret.
  - do 3 same_bind_step. apply IH.
Qed.

Lemma same_shuffle {A} (x : list A) : same_run sim (shuffle x) (shuffle x).
Proof. apply same_shuffle_loop. Qed.

Variable nltk : Nltk.

Lemma same_create_mcq (sentence : string) (keywords : list string) :
  same_run sim (create_mcq_from_sentence nltk sentence keywords)
               (create_mcq_from_sentence nltk sentence keywords).
Proof.
  unfold create_mcq_from_sentence.
  apply same_bind; [apply same_lift | intros words].
  apply same_bind; [apply same_lift | intros stop_words].
  destruct (filter _ _); [apply same_ret|].
  apply same_bind; [apply same_choice | intros target].
  apply same_bind; [apply same_sample | intros ds].
  apply same_bind; [apply same_shuffle | intros os].
  same_bind_step. same_step.
Qed.

Lemma same_true_false_loop (sentence : string) (keywords : list string) :
  forall content_words,
    same_run sim (true_false_loop sentence keywords content_words)
                 (true_false_loop sentence keywords content_words).
Proof.
  induction content_words as [|w rest IH]; cbn [true_false_loop].
  - apply same_ret.
  - apply same_bind; [apply same_choice | intros k].
    destruct (negb _); [apply same_ret | apply IH].
Qed.

Lemma same_create_true_false (sentence : string) (keywords : list string) :
  same_run sim (create_true_false_from_sentence nltk sentence keywords)
               (create_true_false_from_sentence nltk sentence keywords).
Proof.
  unfold create_true_false_from_sentence.
  destruct (length (split sentence) <? 8); [apply same_ret|].
  apply same_bind; [apply same_lift | intros [|w cw]]; [apply same_ret|].
  destruct keywords as [|k kws]; [apply same_ret|].
  apply same_bind; [apply same_true_false_loop | intros ?; apply same_ret].
Qed.

Lemma same_mcq_loop (keywords : list string) (num_mcq : nat) :
  forall sentences all_cards,
    same_run sim (mcq_loop nltk keywords num_mcq sentences all_cards)
                 (mcq_loop nltk keywords num_mcq sentences all_cards).
Proof.
  induction sentences as [|s rest IH]; intros all_cards; cbn [mcq_loop].
  - apply same_ret.
  - apply same_bind; [apply same_create_mcq | intros [c|]]; [|apply IH].
    destruct (num_mcq <=? _); [apply same_ret | apply IH].
Qed.

Lemma same_tf_loop (keywords : list string) (num_tf : nat) :
  forall sentences tf_count all_cards,
    same_run sim (tf_loop nltk keywords num_tf sentences tf_count all_cards)
                 (tf_loop nltk keywords num_tf sentences tf_count all_cards).
Proof.
  induction sentences as [|s rest IH]; intros tf_count all_cards;
    cbn [tf_loop].
  - apply same_ret.
  - destruct (num_tf <=? tf_count); [apply same_ret|].
    apply same_bind; [apply same_create_true_false | intros [[|q qs]|]];
      apply IH.
Qed.

Lemma same_assemble (key_sentences keywords : list string)
      (num_mcq num_tf num_fill : nat) :
  same_run sim
    (assemble nltk key_sentences keywords num_mcq num_tf num_fill)
    (assemble nltk key_sentences keywords num_mcq num_tf num_fill).
Proof.
  unfold assemble.
  apply same_bind; [apply same_mcq_loop | intros ?].
  apply same_bind; [apply same_tf_loop | intros ?].
  apply same_ret.
Qed.

Lemma same_generate_flashcards (text : string)
      (num_mcq num_tf num_fill : nat) :
  same_run sim
    (generate_flashcards nltk text num_mcq num_tf num_fill)
    (generate_flashcards nltk text num_mcq num_tf num_fill).
Proof.
  unfold generate_flashcards.
  destruct (String.eqb text "" || (len (strip text) <? 100));
    [apply same_ret|].
  apply same_bind; [apply same_lift | intros [[|s ks] kws]];
    [apply same_ret|].
  apply same_bind; [apply same_assemble | intros ?].
  apply same_bind; [apply same_shuffle | intros ?].
  apply same_ret.
Qed.
End TwoRuns.

Lemma generate_flashcards_total (nltk : Nltk) {R : Type} `{RandomSource R}
      (text : string) (num_mcq num_tf num_fill : nat) (g : R) :
  exists deck g',
    generate_flashcards nltk text num_mcq num_tf num_fill g = Ok (deck, g').
Proof.
  destruct (String.eqb text "" || (len (strip text) <? 100)) eqn:Hguard.
  - exists [], g. unfold generate_flashcards. now rewrite Hguard.
  - destruct (extract_key_sentences_total nltk text 25) as (ks & kws & Hks).
    destruct (generate_flashcards_spec nltk text num_mcq num_tf num_fill g
                ks kws Hguard Hks)
      as (_ & _ & deck & g' & Hrun & _).
    now exists deck, g'.
Qed.

(** C9. Deck generation is a function of the text, the quotas and the
    draws: two runs on the same input whose random sources start in
    states that answer alike (the same seed; the sources may even be of
    different kinds) both return, with the same deck, hence the same
    number of cards in the same order with the same fields, and they
    leave the sources in states that still answer alike. *)
Theorem generate_flashcards_deterministic
        {R1 R2 : Type} `{RandomSource R1} `{RandomSource R2}
        (sim : R1 -> R2 -> Prop) (nltk : Nltk) (text : string)
        (num_mcq num_tf num_fill : nat) (g1 : R1) (g2 : R2) :
  simulation sim ->
  sim g1 g2 ->
  exists deck g1' g2',
    generate_flashcards nltk text num_mcq num_tf num_fill g1 = Ok (deck, g1')
    /\ generate_flashcards nltk text num_mcq num_tf num_fill g2
       = Ok (deck, g2')
    /\ sim g1' g2'.
Proof.
  intros Hsim Hg.
  pose proof (same_generate_flashcards sim Hsim nltk text
                num_mcq num_tf num_fill g1 g2 Hg) as Hsame.
  destruct (generate_flashcards_total nltk text num_mcq num_tf num_fill g1)
    as (deck & g1' & Hrun1).
  rewrite Hrun1 in Hsame. unfold same_outcome in Hsame.
  destruct (generate_flashcards nltk text num_mcq num_tf num_fill g2)
    as [[deck2 g2']|e]; [|contradiction].
  destruct Hsame as [<- Hg'].
  now exists deck, g1', g2'.
Qed.

Lemma generate_flashcards_deterministic_witness :
  exists deck g1' g2',
    generate_flashcards nltk_unavailable
      "The mitochondria is the powerhouse of the living cell in every organism on earth. Mitochondria produce energy for the cell through a process called cellular respiration every day."
      1 2 1 ([3; 1; 4; 1; 5; 9; 2; 6; 5; 3; 5; 8; 9; 7; 9] : tape)
    = Ok (deck, g1')
    /\ generate_flashcards nltk_unavailable
         "The mitochondria is the powerhouse of the living cell in every organism on earth. Mitochondria produce energy for the cell through a process called cellular respiration every day."
         1 2 1 ([3; 1; 4; 1; 5; 9; 2; 6; 5; 3; 5; 8; 9; 7; 9] : tape)
       = Ok (deck, g2')
    /\ g1' = g2'.
Proof.
  apply (generate_flashcards_deterministic (@eq tape)).
  - intros g1 g2 n Hg. rewrite Hg. split; reflexivity.
  - reflexivity.
Defined.

(* ================================================================= *)
(** ** Further properties of the multiple-choice generator *)

(** With at most 21 keywords the distractor pool has at most 21 words,
    so that [random.sample] runs the loop of [sample_loop] on it. *)
Lemma potential_distractors_pool (keywords : list string) (target : string) :
  length keywords <= 21 ->
  length (potential_distractors keywords target) <= 21.
Proof.
  intros Hk. unfold potential_distractors.
  pose proof (filter_length_le
                (fun w => negb (String.eqb w target) && (2 <? len w))
                keywords) as Hf.
  destruct (length (filter _ keywords) <? 3) eqn:Hlt; [|lia].
  apply Nat.ltb_lt in Hlt. rewrite length_app. simpl. lia.
Qed.

(** X1. Called with at most 21 keywords, [create_mcq_from_sentence] never
    raises. It returns no card exactly when the sentence has no content
    word, and then draws nothing; a card it returns has four options,
    three of them sampled from a pool of at most 21 words, and the
    recorded index is the first position of the recorded answer among
    the options. *)
Theorem create_mcq_card_shape
        (nltk : Nltk) {R : Type} `{RandomSource R}
        (sentence : string) (keywords : list string) (g : R) :
  length keywords <= 21 ->
  exists r g',
    create_mcq_from_sentence nltk sentence keywords g = Ok (r, g')
    /\ match r with
       | None => mcq_eligible nltk sentence = false /\ g' = g
       | Some c =>
           mcq_eligible nltk sentence = true
           /\ exists question options answer idx explanation,
                c = Mcq question options answer idx explanation
                /\ length (potential_distractors keywords answer) <= 21
                /\ length options = 4
                /\ nth_error options idx = Some answer
                /\ (forall j, j < idx -> nth_error options j <> Some answer)
       end.
Proof.
  intros Hsmall.
  destruct (safe_word_tokenize_total nltk sentence) as [words Hwords].
  destruct (get_stopwords_total nltk) as [stop_words Hstop].
  unfold mcq_eligible. rewrite Hwords, Hstop.
  destruct (create_mcq_spec nltk sentence keywords words stop_words g
              Hwords Hstop)
    as [[Hcw Hnone]|(t & ds & os & i & g' & Hsome & Hin & Hds & _ & Hperm
                     & Hnth & Hfirst)].
  - exists None, g. rewrite Hcw. now repeat split.
  - eexists (Some _), g'. split; [exact Hsome|].
    destruct (filter (content_word stop_words) words); [destruct Hin|].
    split; [reflexivity|].
    do 5 eexists. split; [reflexivity|].
    split; [now apply potential_distractors_pool|].
    split; [|split; assumption].
    rewrite (Permutation_length Hperm), length_app, Hds. reflexivity.
Qed.

Lemma create_mcq_card_shape_witness :
  length ["energy"; "cellular"] <= 21
  /\ exists r g',
       create_mcq_from_sentence nltk_unavailable
         "This process is essential for cellular energy."
         ["energy"; "cellular"] ([1; 4; 0; 0; 0; 0; 0] : tape)
       = Ok (r, g')
       /\ r <> None.
Proof.
  assert (Hsmall : length ["energy"; "cellular"] <= 21) by (simpl; lia).
  split; [exact Hsmall|].
  destruct (create_mcq_card_shape nltk_unavailable
              "This process is essential for cellular energy."
              ["energy"; "cellular"] ([1; 4; 0; 0; 0; 0; 0] : tape) Hsmall)
    as (r & g' & Hrun & Hr).
  exists r, g'. split; [exact Hrun|].
  destruct r as [c|]; [discriminate|].
  destruct Hr as [Hno _]. vm_compute in Hno. discriminate Hno.
Defined.

Lemma firstn_set_nth_lt {A} (j k : nat) (v : A) (l : list A) :
  j < k -> firstn k (set_nth j v l) = set_nth j v (firstn k l).
Proof.
  revert j k. induction l as [|x l IH]; intros [|j] [|k] Hjk; simpl;
    try reflexivity; try lia.
  f_equal. apply IH. lia.
Qed.

Lemma firstn_set_nth_ge {A} (j k : nat) (v : A) (l : list A) :
  k <= j -> firstn k (set_nth j v l) = firstn k l.
Proof.
  revert j k. induction l as [|x l IH]; intros [|j] [|k] Hjk; simpl;
    try reflexivity; try lia.
  f_equal. apply IH. lia.
Qed.

Lemma firstn_snoc {A} (k : nat) (y : A) (l : list A) :
  nth_error l k = Some y -> firstn (S k) l = firstn k l ++ [y].
Proof.
  revert k. induction l as [|x l IH]; intros [|k]; simpl; intros Hk;
    try discriminate.
  - now injection Hk as ->.
  - f_equal. now apply IH.
Qed.

Section SampleFacts.
Context {R : Type} `{RandomSource R}.

(** The sample is taken without replacement: with what is left of the
    pool it makes up the part of the pool still in play. *)
Lemma sample_loop_sub {A} (n steps : nat) :
  forall (i : nat) (pool : list A) (g : R),
    length pool = n -> i + steps <= n ->
    exists l g', sample_loop n steps i pool g = Ok (l, g')
                 /\ length l = steps
                 /\ exists rest, Permutation (l ++ rest) (firstn (n - i) pool).
Proof.
  induction steps as [|steps IH]; intros i pool g Hlen Hle.
  - exists [], g. repeat split. now exists (firstn (n - i) pool).
  - cbn [sample_loop]. unfold bind, draw, lift.
    pose proof (randbelow_lt g (n - i)) as Hlt.
    destruct (randbelow g (n - i)) as [j g1]. simpl fst in Hlt.
    assert (Hj : j < n - i) by (apply Hlt; lia).
    destruct (index_at_lt pool j) as (x & -> & Hx); [lia|].
    destruct (index_at_lt pool (n - i - 1)) as (y & -> & Hy); [lia|].
    destruct (IH (S i) (set_nth j y pool) g1)
      as (l & g' & -> & Hl & rest & Hperm);
      [now rewrite set_nth_length | lia |].
    exists (x :: l), g'. unfold ret. repeat split.
    + simpl. now rewrite Hl.
    + exists rest. cbn [app].
      replace (n - i) with (S (n - i - 1)) by lia.
      replace (n - S i) with (n - i - 1) in Hperm by lia.
      rewrite (firstn_snoc _ y _ Hy).
      rewrite <- Permutation_cons_append.
      destruct (Nat.eq_dec j (n - i - 1)) as [->|Hne].
      * rewrite firstn_set_nth_ge in Hperm by lia.
        assert (x = y) by congruence. subst y.
        now constructor.
      * rewrite firstn_set_nth_lt in Hperm by lia.
        rewrite (perm_skip x Hperm).
        symmetry. apply set_nth_perm.
        rewrite nth_error_firstn.
        destruct (j <? n - i - 1) eqn:Hjlt; [exact Hx|].
        apply Nat.ltb_ge in Hjlt. lia.
Qed.

Lemma sample_sub {A} (population : list A) (k : nat) (g : R) :
  k <= length population ->
  exists l g', sample population k g = Ok (l, g')
               /\ length l = k
               /\ exists rest, Permutation (l ++ rest) population.
Proof.
  intros Hk. unfold sample.
  destruct (length population <? k) eqn:Hlt;
    [apply Nat.ltb_lt in Hlt; lia|].
  destruct (sample_loop_sub (length population) k 0 population g eq_refl)
    as (l & g' & Hrun & Hl & rest & Hperm); [lia|].
  exists l, g'. split; [exact Hrun|]. split; [exact Hl|].
  exists rest. rewrite Nat.sub_0_r, firstn_all in Hperm. exact Hperm.
Qed.
End SampleFacts.

(** A run of [create_mcq_from_sentence] that returns a card, taken
    apart: the answer, the sampled distractors and the shuffled options. *)
Lemma create_mcq_run (nltk : Nltk) {R : Type} `{RandomSource R}
      (sentence : string) (keywords : list string) (g g' : R) (c : card) :
  create_mcq_from_sentence nltk sentence keywords g = Ok (Some c, g') ->
  exists target distractors options idx rest,
    c = Mcq ("Complete the sentence: "
               ++ replace_first target blank sentence)%string
            options target idx
            ("The correct answer is '" ++ target
               ++ "' based on the context.")%string
    /\ length distractors = 3
    /\ Permutation (distractors ++ rest)
                   (potential_distractors keywords target)
    /\ Permutation options (distractors ++ [target]).
Proof.
  intros Hrun.
  destruct (safe_word_tokenize_total nltk sentence) as [words Hwords].
  destruct (get_stopwords_total nltk) as [stop_words Hstop].
  unfold create_mcq_from_sentence in Hrun.
  rewrite Hwords, Hstop, !bind_lift in Hrun.
  destruct (filter (content_word stop_words) words) as [|w cw] eqn:Hcw;
    [discriminate Hrun|].
  destruct (choice_spec (w :: cw) g) as (target & g1 & Hchoice & _);
    [easy|].
  rewrite (bind_run _ _ _ _ _ Hchoice) in Hrun.
  pose proof (potential_distractors_length keywords target) as Hpd.
  destruct (sample_sub (potential_distractors keywords target)
              (Nat.min 3 (length (potential_distractors keywords target)))
              g1) as (ds & g2 & Hsample & Hds & rest & Hsub); [lia|].
  rewrite (bind_run _ _ _ _ _ Hsample) in Hrun.
  destruct (shuffle_spec (ds ++ [target]) g2)
    as (options & g3 & Hshuffle & Hperm).
  rewrite (bind_run _ _ _ _ _ Hshuffle) in Hrun.
  assert (Hin : In target options).
  { apply (Permutation_in _ (Permutation_sym Hperm)).
    apply in_or_app. right. now left. }
  destruct (list_index_spec options target Hin) as (idx & Hidx & _).
  rewrite Hidx, bind_lift in Hrun. injection Hrun as <- _.
  exists target, ds, options, idx, rest.
  repeat split; try assumption. lia.
Qed.

Lemma count_occ_filter_out (target : string) (keywords : list string) :
  count_occ string_dec
    (filter (fun w => negb (String.eqb w target) && (2 <? len w)) keywords)
    target = 0.
Proof.
  apply count_occ_not_In. intros Hin. apply filter_In in Hin.
  destruct Hin as [_ Hf]. rewrite String.eqb_refl in Hf. discriminate Hf.
Qed.

Lemma general_distractors_nodup : NoDup general_distractors.
Proof.
  unfold general_distractors.
  repeat (constructor; [simpl; intuition discriminate|]). constructor.
Qed.

(** X2. How often the answer of a multiple-choice card made from at
    most 21 keywords occurs among its options: once or twice, and exactly
    once when at least three keywords are usable as distractors (the pool
    is not padded) or the answer is not one of the generic padding words.
    With pairwise distinct keywords and an unpadded pool the four options
    are pairwise distinct. *)
Theorem create_mcq_answer_count
        (nltk : Nltk) {R : Type} `{RandomSource R}
        (sentence : string) (keywords : list string) (g g' : R)
        (question : string) (options : list string) (answer : string)
        (idx : nat) (explanation : string) :
  length keywords <= 21 ->
  create_mcq_from_sentence nltk sentence keywords g
  = Ok (Some (Mcq question options answer idx explanation), g') ->
  let usable :=
    filter (fun w => negb (String.eqb w answer) && (2 <? len w)) keywords in
  1 <= count_occ string_dec options answer <= 2
  /\ (3 <= length usable \/ ~ In answer general_distractors ->
      count_occ string_dec options answer = 1)
  /\ (NoDup keywords -> 3 <= length usable -> NoDup options).
Proof.
  intros _ Hrun usable.
  destruct (create_mcq_run nltk sentence keywords g g' _ Hrun)
    as (t & ds & os & i & rest & Hc & Hds & Hsub & Hperm).
  injection Hc as _ -> -> _ _.
  assert (Hcount : count_occ string_dec os t
                   = count_occ string_dec ds t + 1).
  { rewrite (Permutation_count_occ string_dec) in Hperm.
    rewrite Hperm, count_occ_app. simpl.
    destruct (string_dec t t); [reflexivity | easy]. }
  assert (Hle : count_occ string_dec ds t
                <= count_occ string_dec (potential_distractors keywords t) t).
  { rewrite (Permutation_count_occ string_dec) in Hsub.
    rewrite <- Hsub, count_occ_app. lia. }
  assert (Hgen : count_occ string_dec general_distractors t <= 1).
  { apply NoDup_count_occ. exact general_distractors_nodup. }
  unfold potential_distractors in Hle, Hsub. fold usable in Hle, Hsub.
  pose proof (count_occ_filter_out t keywords) as Hout. fold usable in Hout.
  split; [|split].
  - destruct (length usable <? 3); [rewrite count_occ_app in Hle|]; lia.
  - intros [Hlen|Hnot].
    + apply Nat.ltb_ge in Hlen. rewrite Hlen in Hle. lia.
    + apply (count_occ_not_In string_dec) in Hnot.
      destruct (length usable <? 3); [rewrite count_occ_app in Hle|]; lia.
  - intros Hnd Hlen. apply Nat.ltb_ge in Hlen. rewrite Hlen in Hle, Hsub.
    apply (Permutation_NoDup (Permutation_sym Hperm)).
    assert (Hnds : NoDup ds).
    { apply (NoDup_app_remove_r _ rest).
      apply (Permutation_NoDup (Permutation_sym Hsub)).
      now apply NoDup_filter. }
    apply NoDup_app; [exact Hnds | repeat constructor; easy|].
    intros a Ha [<-|[]].
    apply (count_occ_In string_dec) in Ha. lia.
Qed.

Lemma create_mcq_answer_count_witness :
  1 <= count_occ string_dec ["energy"; "model"; "process"; "process"]
                 "process" <= 2.
Proof.
  apply (create_mcq_answer_count nltk_unavailable
           "This process is essential for cellular energy."
           ["energy"; "cellular"] ([1; 4; 0; 0; 0; 0; 0] : tape) []
           "Complete the sentence: This ________ is essential for cellular energy."
           ["energy"; "model"; "process"; "process"] "process" 2
           "The correct answer is 'process' based on the context.").
  - simpl. lia.
  - vm_compute. reflexivity.
Defined.

(* ================================================================= *)
(** ** Further properties of the deck *)

Lemma filter_length_perm {A} (p : A -> bool) (l l' : list A) :
  Permutation l l' -> length (filter p l) = length (filter p l').
Proof.
  induction 1 as [|x l l' _ IH|x y l|l l' l'' _ IH1 _ IH2]; simpl.
  - reflexivity.
  - destruct (p x); simpl; now rewrite IH.
  - destruct (p x), (p y); reflexivity.
  - now rewrite IH1.
Qed.

Lemma mcq_cards_kind (sentences : list string) (mcqs : list card) :
  Forall2 mcq_card_of sentences mcqs ->
  Forall (fun c => is_mcq c = true /\ is_true_false c = false
                   /\ is_fill_blank c = false) mcqs.
Proof.
  induction 1 as [|s c ss cs Hc _ IH]; constructor; [|exact IH].
  destruct Hc as (t & os & i & e & ->). now repeat split.
Qed.

Lemma tf_lists_kind (sentences : list string) (tf_lists : list (list card)) :
  Forall2 tf_cards_of sentences tf_lists ->
  Forall (fun c => is_mcq c = false /\ is_true_false c = true
                   /\ is_fill_blank c = false) (concat tf_lists).
Proof.
  induction 1 as [|s cs ss css Hcs _ IH]; simpl; [constructor|].
  apply Forall_app. split; [|exact IH].
  destruct Hcs as [->|(w & r & ->)]; repeat constructor.
Qed.

Lemma tf_lists_length (sentences : list string) (tf_lists : list (list card)) :
  Forall2 tf_cards_of sentences tf_lists ->
  length tf_lists <= length (concat tf_lists).
Proof.
  induction 1 as [|s cs ss css Hcs _ IH]; simpl; [lia|].
  rewrite length_app. apply tf_cards_of_length in Hcs. lia.
Qed.

Lemma fill_cards_kind (keywords sentences : list string) :
  Forall (fun c => is_mcq c = false /\ is_true_false c = false
                   /\ is_fill_blank c = true)
         (flat_map (fill_cards_of keywords) sentences).
Proof.
  pose proof (fill_cards_of_kind keywords sentences) as Hk.
  rewrite Forall_forall in *. intros c Hc. specialize (Hk c Hc).
  destruct c; try discriminate Hk. now repeat split.
Qed.

Lemma Forall_firstn {A} (P : A -> Prop) (n : nat) (l : list A) :
  Forall P l -> Forall P (firstn n l).
Proof.
  intros Hl. rewrite Forall_forall in *. intros x Hx. apply Hl.
  rewrite <- (firstn_skipn n l). apply in_or_app. now left.
Qed.

Lemma filter_all_weak {A} (p : A -> bool) (P : A -> Prop) (l : list A) :
  (forall x, P x -> p x = true) -> Forall P l -> filter p l = l.
Proof.
  intros Himp Hl. apply filter_all.
  rewrite Forall_forall in *. intros x Hx. now apply Himp, Hl.
Qed.

Lemma filter_none_weak {A} (p : A -> bool) (P : A -> Prop) (l : list A) :
  (forall x, P x -> p x = false) -> Forall P l -> filter p l = [].
Proof.
  intros Himp Hl. apply filter_none.
  rewrite Forall_forall in *. intros x Hx. now apply Himp, Hl.
Qed.

(** The number of cards of each type in the deck of a text that passes
    the length guard. *)
Lemma deck_counts (nltk : Nltk) {R : Type} `{RandomSource R}
      (text : string) (num_mcq num_tf num_fill : nat) (g : R)
      (key_sentences keywords : list string) :
  String.eqb text "" || (len (strip text) <? 100) = false ->
  extract_key_sentences nltk text 25 = Ok (key_sentences, keywords) ->
  exists deck g',
    generate_flashcards nltk text num_mcq num_tf num_fill g = Ok (deck, g')
    /\ length (filter is_mcq deck)
       = Nat.min num_mcq
           (length (filter (mcq_eligible nltk)
                           (firstn (num_mcq * 2) key_sentences)))
    /\ Nat.min num_tf (length key_sentences)
       <= length (filter is_true_false deck) <= num_tf
    /\ length (filter is_fill_blank deck)
       = Nat.min num_fill
           (length (flat_map (fill_cards_of keywords) key_sentences)).
Proof.
  intros Hguard Hks.
  destruct (generate_flashcards_spec nltk text num_mcq num_tf num_fill g
              key_sentences keywords Hguard Hks)
    as (mcqs & tls & deck & g' & Hrun & Hmcqs & Htls & Hstop & Hperm & _).
  exists deck, g'. split; [exact Hrun|].
  pose proof (mcq_cards_kind _ _ Hmcqs) as Km.
  pose proof (Forall_firstn _ num_tf _ (tf_lists_kind _ _ Htls)) as Kt.
  pose proof (Forall_firstn _ num_fill _
                (fill_cards_kind keywords key_sentences)) as Kf.
  pose proof (tf_lists_length _ _ Htls) as Htl.
  pose proof (Forall2_length Htls) as Hlen2.
  rewrite length_firstn in Hlen2.
  rewrite !(filter_length_perm _ _ _ Hperm), !filter_app.
  split; [|split].
  - rewrite (filter_all_weak is_mcq _ mcqs (fun c Hc => proj1 Hc) Km).
    rewrite (filter_none_weak is_mcq _ _ (fun c Hc => proj1 Hc) Kt).
    rewrite (filter_none_weak is_mcq _ _ (fun c Hc => proj1 Hc) Kf).
    rewrite !app_nil_r, <- (Forall2_length Hmcqs). apply length_firstn.
  - rewrite (filter_none_weak is_true_false _ mcqs
               (fun c Hc => proj1 (proj2 Hc)) Km).
    rewrite (filter_all_weak is_true_false _ _
               (fun c Hc => proj1 (proj2 Hc)) Kt).
    rewrite (filter_none_weak is_true_false _ _
               (fun c Hc => proj1 (proj2 Hc)) Kf).
    rewrite app_nil_r. cbn [app]. rewrite length_firstn. lia.
  - rewrite (filter_none_weak is_fill_blank _ mcqs
               (fun c Hc => proj2 (proj2 Hc)) Km).
    rewrite (filter_none_weak is_fill_blank _ _
               (fun c Hc => proj2 (proj2 Hc)) Kt).
    rewrite (filter_all_weak is_fill_blank _ _
               (fun c Hc => proj2 (proj2 Hc)) Kf).
    cbn [app]. apply length_firstn.
Qed.

(** X3. [generate_flashcards] never raises, for any text, quotas and
    random source, and the deck respects every quota separately: at most
    [num_mcq] multiple-choice cards, at most [num_tf] true/false cards and
    at most [num_fill] fill-in-the-blank cards. *)
Theorem generate_flashcards_type_quotas
        (nltk : Nltk) {R : Type} `{RandomSource R}
        (text : string) (num_mcq num_tf num_fill : nat) (g : R) :
  exists deck g',
    generate_flashcards nltk text num_mcq num_tf num_fill g = Ok (deck, g')
    /\ length (filter is_mcq deck) <= num_mcq
    /\ length (filter is_true_false deck) <= num_tf
    /\ length (filter is_fill_blank deck) <= num_fill.
Proof.
  destruct (String.eqb text "" || (len (strip text) <? 100)) eqn:Hguard.
  - exists [], g. unfold generate_flashcards. rewrite Hguard.
    repeat split; simpl; lia.
  - destruct (extract_key_sentences_total nltk text 25) as (ks & kws & Hks).
    destruct (deck_counts nltk text num_mcq num_tf num_fill g ks kws
                Hguard Hks)
      as (deck & g' & Hrun & Hm & Ht & Hf).
    exists deck, g'. split; [exact Hrun|]. lia.
Qed.

(** X4. On a text that passes the length guard the number of cards of
    each type is determined by the ranked pool: as many multiple-choice
    cards as the quota allows among the sentences with a content word in
    the first [2 * num_mcq]; as many fill-in-the-blank cards as the quota
    allows among the sentences that have one; and true/false cards up to
    the quota, at least one per sentence of the pool until then. *)
Theorem generate_flashcards_type_counts
        (nltk : Nltk) {R : Type} `{RandomSource R}
        (text : string) (num_mcq num_tf num_fill : nat) (g : R)
        (key_sentences keywords : list string) :
  String.eqb text "" || (len (strip text) <? 100) = false ->
  extract_key_sentences nltk text 25 = Ok (key_sentences, keywords) ->
  exists deck g',
    generate_flashcards nltk text num_mcq num_tf num_fill g = Ok (deck, g')
    /\ length (filter is_mcq deck)
       = Nat.min num_mcq
           (length (filter (mcq_eligible nltk)
                           (firstn (num_mcq * 2) key_sentences)))
    /\ Nat.min num_tf (length key_sentences)
       <= length (filter is_true_false deck) <= num_tf
    /\ length (filter is_fill_blank deck)
       = Nat.min num_fill
           (length (flat_map (fill_cards_of keywords) key_sentences)).
Proof.
  intros Hguard Hks. now apply deck_counts.
Qed.

Lemma generate_flashcards_type_counts_witness :
  exists deck g',
    generate_flashcards nltk_unavailable
      "The mitochondria is the powerhouse of the living cell in every organism on earth. Mitochondria produce energy for the cell through a process called cellular respiration every day."
      1 2 1 ([3; 1; 4; 1; 5; 9; 2; 6; 5; 3; 5; 8; 9; 7; 9] : tape)
    = Ok (deck, g')
    /\ length (filter is_mcq deck) = 1
    /\ length (filter is_true_false deck) = 2
    /\ length (filter is_fill_blank deck) = 1.
Proof.
  destruct (generate_flashcards_type_counts nltk_unavailable
              "The mitochondria is the powerhouse of the living cell in every organism on earth. Mitochondria produce energy for the cell through a process called cellular respiration every day."
              1 2 1 ([3; 1; 4; 1; 5; 9; 2; 6; 5; 3; 5; 8; 9; 7; 9] : tape)
              ["Mitochondria produce energy for the cell through a process called cellular respiration every day.";
               "The mitochondria is the powerhouse of the living cell in every organism on earth."]
              ["mitochondria"; "cell"; "every"; "powerhouse"; "living";
               "organism"; "produce"; "energy"; "through"; "process";
               "called"; "cellular"; "respiration"])
    as (deck & g' & Hrun & Hm & Ht & Hf).
  - vm_compute. reflexivity.
  - vm_compute. reflexivity.
  - exists deck, g'. split; [exact Hrun|].
    split; [rewrite Hm; vm_compute; reflexivity|].
    split; [|rewrite Hf; vm_compute; reflexivity].
    destruct Ht as [Hlo Hhi].
    assert (Hlo' : 2 <= length (filter is_true_false deck)) by exact Hlo.
    lia.
Defined.

Lemma not_true_false_card (c : card) :
  is_true_false c = false ->
  is_true_card c = false /\ is_false_card c = false.
Proof. destruct c as [| ? [] ?|]; simpl; auto; discriminate. Qed.

(** In every prefix of the true/false cards there are at least as many
    true cards as false ones: a false card comes right after the true
    card of its sentence. *)
Lemma tf_prefix_balance (sentences : list string)
      (tf_lists : list (list card)) :
  Forall2 tf_cards_of sentences tf_lists ->
  forall n,
    length (filter is_false_card (firstn n (concat tf_lists)))
    <= length (filter is_true_card (firstn n (concat tf_lists))).
Proof.
  induction 1 as [|s cs ss css Hcs _ IH]; intros n; cbn [concat].
  - rewrite firstn_nil. simpl. lia.
  - rewrite firstn_app, !filter_app, !length_app.
    specialize (IH (n - length cs)).
    destruct Hcs as [->|(w & r & ->)].
    + destruct n as [|n]; cbn [firstn length] in *;
        rewrite ?firstn_nil; simpl in *; lia.
    + destruct n as [|[|n]]; cbn [firstn length] in *;
        rewrite ?firstn_nil; simpl in *; lia.
Qed.

(** X5. In the deck of [generate_flashcards] the false statements never
    outnumber the true ones. *)
Theorem generate_flashcards_true_false_balance
        (nltk : Nltk) {R : Type} `{RandomSource R}
        (text : string) (num_mcq num_tf num_fill : nat) (g : R) :
  exists deck g',
    generate_flashcards nltk text num_mcq num_tf num_fill g = Ok (deck, g')
    /\ length (filter is_false_card deck)
       <= length (filter is_true_card deck).
Proof.
  destruct (String.eqb text "" || (len (strip text) <? 100)) eqn:Hguard.
  { exists [], g. unfold generate_flashcards. rewrite Hguard.
    split; [reflexivity | simpl; lia]. }
  destruct (extract_key_sentences_total nltk text 25) as (ks & kws & Hks).
  destruct (generate_flashcards_spec nltk text num_mcq num_tf num_fill g
              ks kws Hguard Hks)
    as (mcqs & tls & deck & g' & Hrun & Hmcqs & Htls & _ & Hperm & _).
  exists deck, g'. split; [exact Hrun|].
  pose proof (mcq_cards_kind _ _ Hmcqs) as Km.
  pose proof (fill_cards_kind kws ks) as Kf.
  apply (Forall_firstn _ num_fill) in Kf.
  assert (Hm : forall p, (p = is_true_card \/ p = is_false_card) ->
                         filter p mcqs = []).
  { intros p Hp. apply (filter_none_weak p _ mcqs) with (2 := Km).
    intros c (_ & Hc & _). apply not_true_false_card in Hc.
    destruct Hp as [->| ->]; tauto. }
  assert (Hf : forall p, (p = is_true_card \/ p = is_false_card) ->
                         filter p (firstn num_fill
                                     (flat_map (fill_cards_of kws) ks)) = []).
  { intros p Hp. apply (filter_none_weak p _ _) with (2 := Kf).
    intros c (_ & Hc & _). apply not_true_false_card in Hc.
    destruct Hp as [->| ->]; tauto. }
  rewrite !(filter_length_perm _ _ _ Hperm), !filter_app.
  rewrite !Hm, !Hf by tauto. rewrite !app_nil_r. cbn [app].
  now apply (tf_prefix_balance _ _ Htls).
Qed.

Lemma not_mcq_well_formed (c : card) :
  is_mcq c = false -> mcq_well_formed c.
Proof. destruct c; simpl; [discriminate | trivial | trivial]. Qed.

Section WellFormedDeck.
Context (nltk : Nltk) {R : Type} `{RandomSource R}.

Lemma mcq_loop_well_formed (keywords : list string) (num_mcq : nat) :
  forall (sentences : list string) (all_cards : list card) (g : R),
    Forall mcq_well_formed all_cards ->
    exists r g',
      mcq_loop nltk keywords num_mcq sentences all_cards g = Ok (r, g')
      /\ Forall mcq_well_formed r.
Proof.
  induction sentences as [|s rest IH]; intros all_cards g Hall.
  - now exists all_cards, g.
  - cbn [mcq_loop].
    destruct (safe_word_tokenize_total nltk s) as [words Hwords].
    destruct (get_stopwords_total nltk) as [stop_words Hstop].
    destruct (create_mcq_spec nltk s keywords words stop_words g
                Hwords Hstop)
      as [[_ Hnone]|(t & ds & os & i & g1 & Hsome & _ & Hds & _ & Hperm
                     & Hnth & _)].
    + rewrite (bind_run _ _ _ _ _ Hnone). now apply IH.
    + rewrite (bind_run _ _ _ _ _ Hsome).
      set (c := Mcq _ os t i _).
      assert (Hall' : Forall mcq_well_formed (all_cards ++ [c])).
      { apply Forall_app. split; [exact Hall|].
        constructor; [|constructor]. simpl. split; [|exact Hnth].
        rewrite (Permutation_length Hperm), length_app, Hds. reflexivity. }
      destruct (num_mcq <=? _).
      * now exists (all_cards ++ [c]), g1.
      * now apply IH.
Qed.

Lemma fill_loop_well_formed (keywords : list string) (num_fill : nat) :
  forall (sentences : list string) (all_cards : list card),
    Forall mcq_well_formed all_cards ->
    Forall mcq_well_formed (fill_loop keywords num_fill sentences all_cards).
Proof.
  induction sentences as [|s rest IH]; intros all_cards Hall;
    cbn [fill_loop]; [exact Hall|].
  destruct (num_fill <=? _); [exact Hall|].
  destruct (create_fill_blank_from_sentence s keywords) as [c|] eqn:Hc;
    [|now apply IH].
  apply IH. apply Forall_app. split; [exact Hall|].
  constructor; [|constructor].
  apply create_fill_blank_kind in Hc. destruct c; try discriminate Hc.
  exact I.
Qed.

Lemma assemble_well_formed (key_sentences keywords : list string)
      (num_mcq num_tf num_fill : nat) (g : R) :
  Forall (fun s => 8 <= length (split s)) key_sentences ->
  exists cards g',
    assemble nltk key_sentences keywords num_mcq num_tf num_fill g
    = Ok (cards, g')
    /\ Forall mcq_well_formed cards.
Proof.
  intros Hlong. unfold assemble.
  destruct (mcq_loop_well_formed keywords num_mcq
              (firstn (num_mcq * 2) key_sentences) [] g)
    as (r1 & g1 & Hrun1 & Hwf1); [constructor|].
  rewrite (bind_run _ _ _ _ _ Hrun1).
  destruct (tf_loop_spec nltk keywords num_tf key_sentences 0 r1 g1
              Hlong (Nat.le_0_l _))
    as (tls & g2 & Hrun2 & Htls & _).
  rewrite (bind_run _ _ _ _ _ Hrun2).
  eexists _, g2. split; [reflexivity|].
  apply fill_loop_well_formed. apply Forall_app. split; [exact Hwf1|].
  apply Forall_firstn.
  pose proof (tf_lists_kind _ _ Htls) as Hk.
  rewrite Forall_forall in *. intros c Hc.
  apply not_mcq_well_formed. now apply Hk.
Qed.

Lemma generate_flashcards_well_formed (text : string)
      (num_mcq num_tf num_fill : nat) (g : R) :
  exists deck g',
    generate_flashcards nltk text num_mcq num_tf num_fill g = Ok (deck, g')
    /\ Forall mcq_well_formed deck.
Proof.
  unfold generate_flashcards.
  destruct (String.eqb text "" || (len (strip text) <? 100)).
  { exists [], g. split; [reflexivity | constructor]. }
  destruct (extract_key_sentences_total nltk text 25) as (ks & kws & Hks).
  pose proof (extract_key_sentences_long nltk text 25 _ _ Hks) as Hlong.
  rewrite Hks, bind_lift.
  destruct ks as [|s ks].
  { exists [], g. split; [reflexivity | constructor]. }
  destruct (assemble_well_formed (s :: ks) kws num_mcq num_tf num_fill g
              Hlong)
    as (cards & g1 & Hrun & Hwf).
  rewrite (bind_run _ _ _ _ _ Hrun).
  destruct (shuffle_spec cards g1) as (shuffled & g2 & Hsh & Hperm).
  rewrite (bind_run _ _ _ _ _ Hsh).
  eexists _, g2. split; [reflexivity|].
  apply Forall_firstn.
  rewrite Forall_forall in *. intros c Hc. apply Hwf.
  now apply (Permutation_in _ Hperm).
Qed.
End WellFormedDeck.

(** X6. Every multiple-choice card of a deck returned by
    [generate_flashcards] has four options and a [correct_index] that
    points at [correct_answer] among them, which is what the quiz runner
    compares a click against. *)
Theorem generate_flashcards_mcq_well_formed
        (nltk : Nltk) {R : Type} `{RandomSource R}
        (text : string) (num_mcq num_tf num_fill : nat) (g : R) :
  exists deck g',
    generate_flashcards nltk text num_mcq num_tf num_fill g = Ok (deck, g')
    /\ forall question options answer idx explanation,
         In (Mcq question options answer idx explanation) deck ->
         length options = 4 /\ nth_error options idx = Some answer.
Proof.
  destruct (generate_flashcards_well_formed nltk text num_mcq num_tf
              num_fill g) as (deck & g' & Hrun & Hwf).
  exists deck, g'. split; [exact Hrun|].
  intros q os a i e Hin. rewrite Forall_forall in Hwf.
  exact (Hwf _ Hin).
Qed.

(* ================================================================= *)
(** ** Sentence selection *)

Lemma score_loop_spec (nltk : Nltk) (keywords sentences : list string) :
  score_loop nltk keywords sentences
  = Ok (map (fun s => (s, score_of nltk keywords s))
            (filter (fun s => 8 <=? length (split s)) sentences)).
Proof.
  induction sentences as [|s rest IH]; cbn [score_loop filter map].
  - reflexivity.
  - destruct (8 <=? length (split s)); [|exact IH].
    destruct (safe_word_tokenize_total nltk s) as [ws Hws].
    rewrite Hws, IH. cbn [bind_result map].
    do 3 f_equal. unfold score_of. now rewrite Hws.
Qed.

Lemma StronglySorted_trivial {A} (l : list A) :
  StronglySorted (fun _ _ => True) l.
Proof.
  induction l as [|x l IH]; constructor; [exact IH|].
  apply Forall_forall. trivial.
Qed.

(** X7. [extract_key_sentences] never raises and returns the keywords of
    [extract_keywords(text)] together with at most [num_sentences]
    sentences of the text, each of at least eight words, in order of
    non-increasing score; they are the best-scored ones: a sentence of at
    least eight words that was left out scores no more than any selected
    sentence, and then [num_sentences] sentences were selected. *)
Theorem extract_key_sentences_ranked
        (nltk : Nltk) (text : string) (N : nat)
        (sentences keywords : list string) :
  safe_sent_tokenize nltk text = Ok sentences ->
  extract_keywords nltk text 20 = Ok keywords ->
  exists key_sentences,
    extract_key_sentences nltk text N = Ok (key_sentences, keywords)
    /\ length key_sentences <= N
    /\ (forall s, In s key_sentences ->
          In s sentences /\ 8 <= length (split s))
    /\ StronglySorted
         (fun a b => score_of nltk keywords b <= score_of nltk keywords a)
         key_sentences
    /\ (forall s, In s sentences -> 8 <= length (split s) ->
          ~ In s key_sentences ->
          length key_sentences = N
          /\ forall k, In k key_sentences ->
               score_of nltk keywords s <= score_of nltk keywords k).
Proof.
  intros Hsent Hkw. unfold extract_key_sentences.
  rewrite Hsent, Hkw. cbn [bind_result].
  rewrite score_loop_spec. cbn [bind_result].
  set (long := fun s => 8 <=? length (split s)).
  set (scores := map (fun s => (s, score_of nltk keywords s))
                     (filter long sentences)).
  set (sorted := sorted_desc snd scores).
  eexists. split; [reflexivity|].
  assert (Hin : forall p, In p sorted ->
                  snd p = score_of nltk keywords (fst p)
                  /\ In (fst p) sentences /\ 8 <= length (split (fst p))).
  { intros p Hp. apply (Permutation_in _ (sorted_desc_perm snd scores)) in Hp.
    apply in_map_iff in Hp. destruct Hp as (s & <- & Hs).
    apply filter_In in Hs. destruct Hs as [Hs Hl].
    apply Nat.leb_le in Hl. now repeat split. }
  pose proof (sorted_desc_sorted snd (fun _ _ => True) scores
                (StronglySorted_trivial scores)) as Hsorted.
  fold sorted in Hsorted.
  rewrite <- (firstn_skipn N sorted) in Hsorted.
  apply StronglySorted_app_cross in Hsorted.
  destruct Hsorted as [Hfirst Hcross].
  assert (Hfin : forall p, In p (firstn N sorted) -> In p sorted).
  { intros p Hp. rewrite <- (firstn_skipn N sorted).
    apply in_or_app. now left. }
  split; [|split; [|split]].
  - rewrite length_map. apply firstn_le_length.
  - intros s Hs. apply in_map_iff in Hs. destruct Hs as (p & <- & Hp).
    now apply Hin, Hfin.
  - apply (proj1 (StronglySorted_map fst _ _)).
    apply (StronglySorted_impl_in (desc_then snd (fun _ _ => True)));
      [|exact Hfirst].
    intros a b Ha Hb Hab. apply desc_then_key in Hab.
    destruct (Hin a (Hfin a Ha)) as (<- & _).
    destruct (Hin b (Hfin b Hb)) as (<- & _). exact Hab.
  - intros s Hs Hlong Hnot.
    assert (Hp : In (s, score_of nltk keywords s) sorted).
    { apply (Permutation_in _ (Permutation_sym (sorted_desc_perm snd scores))).
      apply in_map_iff. exists s. split; [reflexivity|].
      apply filter_In. split; [exact Hs | now apply Nat.leb_le]. }
    rewrite <- (firstn_skipn N sorted) in Hp.
    apply in_app_or in Hp. destruct Hp as [Hp|Hp].
    { exfalso. apply Hnot.
      change s with (fst (s, score_of nltk keywords s)). now apply in_map. }
    split.
    + rewrite length_map, length_firstn.
      destruct (Nat.le_gt_cases N (length sorted)) as [Hle|Hgt]; [lia|].
      rewrite skipn_all2 in Hp by lia. destruct Hp.
    + intros k Hk. apply in_map_iff in Hk. destruct Hk as (p & <- & Hpk).
      pose proof (desc_then_key _ _ _ _ (Hcross _ _ Hpk Hp)) as Hle.
      destruct (Hin p (Hfin p Hpk)) as (<- & _). exact Hle.
Qed.

Lemma extract_key_sentences_ranked_witness :
  exists key_sentences,
    extract_key_sentences nltk_unavailable
      "The mitochondria is the powerhouse of the living cell in every organism on earth. Mitochondria produce energy for the cell through a process called cellular respiration every day."
      1
    = Ok (key_sentences,
          ["mitochondria"; "cell"; "every"; "powerhouse"; "living";
           "organism"; "produce"; "energy"; "through"; "process";
           "called"; "cellular"; "respiration"])
    /\ length key_sentences <= 1.
Proof.
  destruct (extract_key_sentences_ranked nltk_unavailable
              "The mitochondria is the powerhouse of the living cell in every organism on earth. Mitochondria produce energy for the cell through a process called cellular respiration every day."
              1
              ["The mitochondria is the powerhouse of the living cell in every organism on earth.";
               "Mitochondria produce energy for the cell through a process called cellular respiration every day."]
              ["mitochondria"; "cell"; "every"; "powerhouse"; "living";
               "organism"; "produce"; "energy"; "through"; "process";
               "called"; "cellular"; "respiration"])
    as (ks & Hrun & Hlen & _).
  - vm_compute. reflexivity.
  - vm_compute. reflexivity.
  - exists ks. split; [exact Hrun | exact Hlen].
Defined.

(* ================================================================= *)
(** ** Strings and their pieces *)

Lemma sapp_assoc (a b c : string) :
  ((a ++ b) ++ c = a ++ b ++ c)%string.
Proof. induction a as [|x a IH]; simpl; [reflexivity | now rewrite IH]. Qed.

Lemma sapp_nil_r (a : string) : (a ++ "" = a)%string.
Proof. induction a as [|x a IH]; simpl; [reflexivity | now rewrite IH]. Qed.

Lemma sapp_length (a b : string) : len (a ++ b) = len a + len b.
Proof.
  unfold len. induction a as [|x a IH]; simpl; [reflexivity | now rewrite IH].
Qed.

Lemma sapp_inv_head (a b c : string) :
  (a ++ b = a ++ c)%string -> b = c.
Proof.
  induction a as [|x a IH]; simpl; intros Heq; [exact Heq|].
  injection Heq as Heq. now apply IH.
Qed.

Lemma sapp_inv_tail (a b t : string) :
  (a ++ t = b ++ t)%string -> a = b.
Proof.
  revert b. induction a as [|x a IH]; intros [|y b] Heq; simpl in Heq.
  - reflexivity.
  - exfalso. apply (f_equal len) in Heq.
    change (String y (b ++ t)) with (String y b ++ t)%string in Heq.
    rewrite sapp_length in Heq. unfold len in Heq. simpl in Heq. lia.
  - exfalso. apply (f_equal len) in Heq.
    change (String x (a ++ t)) with (String x a ++ t)%string in Heq.
    rewrite sapp_length in Heq. unfold len in Heq. simpl in Heq. lia.
  - injection Heq as -> Heq. f_equal. now apply IH.
Qed.

Lemma prefix_app (a s : string) :
  String.prefix a s = true <-> exists t, s = (a ++ t)%string.
Proof.
  revert s. induction a as [|x a IH]; intros s.
  - split; [intros _; now exists s | now destruct s].
  - destruct s as [|y s]; cbn [String.prefix append].
    + split; [discriminate | intros [t Ht]; discriminate Ht].
    + destruct (Ascii.ascii_dec x y) as [->|Hne].
      * rewrite IH. split; intros [t Ht]; exists t.
        -- now rewrite Ht.
        -- now injection Ht.
      * split; [discriminate|]. intros [t Ht]. injection Ht as Hxy _.
        congruence.
Qed.

Lemma drop_app (a t : string) : drop (len a) (a ++ t) = t.
Proof. induction a as [|x a IH]; simpl; [reflexivity | exact IH]. Qed.

Lemma replace_first_eq (old new s : string) :
  replace_first old new s
  = if String.prefix old s then (new ++ drop (len old) s)%string
    else match s with
         | EmptyString => EmptyString
         | String c s' => String c (replace_first old new s')
         end.
Proof. destruct s; reflexivity. Qed.

(** [s.replace(old, new, 1)] when [old] occurs: the leftmost occurrence
    is the one replaced. *)
Lemma replace_first_found (old new s : string) :
  substring_of old s ->
  exists pre post,
    s = (pre ++ old ++ post)%string
    /\ replace_first old new s = (pre ++ new ++ post)%string
    /\ forall pre2 post2,
         s = (pre2 ++ old ++ post2)%string -> len pre <= len pre2.
Proof.
  induction s as [|c s IH]; intros Hsub; rewrite replace_first_eq.
  - destruct Hsub as (pre & post & Hs).
    destruct pre; [|discriminate Hs]. simpl in Hs.
    destruct old; [|discriminate Hs]. simpl in Hs. subst post.
    exists "", "". simpl. repeat split. intros; unfold len; simpl; lia.
  - destruct (String.prefix old (String c s)) eqn:Hp.
    + apply prefix_app in Hp. destruct Hp as [t Ht].
      exists "", t. rewrite Ht, drop_app. simpl.
      repeat split. intros; unfold len; simpl; lia.
    + assert (Hcons : forall pre post,
                String c s = (pre ++ old ++ post)%string ->
                exists pre', pre = String c pre'
                             /\ s = (pre' ++ old ++ post)%string).
      { intros pre post Hs. destruct pre as [|x pre'].
        - simpl in Hs.
          assert (String.prefix old (String c s) = true)
            by (apply prefix_app; now exists post).
          congruence.
        - simpl in Hs. injection Hs as -> Hs. now exists pre'. }
      destruct Hsub as (pre & post & Hs).
      destruct (Hcons pre post Hs) as (pre' & -> & Hs').
      destruct (IH (ex_intro _ pre' (ex_intro _ post Hs')))
        as (p0 & q0 & Hs0 & Hr & Hleft).
      exists (String c p0), q0. simpl. rewrite Hr, <- Hs0.
      repeat split.
      intros pre2 post2 Hs2.
      destruct (Hcons pre2 post2 Hs2) as (pre2' & -> & Hs2').
      specialize (Hleft pre2' post2 Hs2'). unfold len in *. simpl. lia.
Qed.

Lemma rev_string_cons (c : ascii) (acc : list ascii) :
  rev_string (c :: acc) = (rev_string acc ++ String c "")%string.
Proof.
  unfold rev_string. simpl.
  induction (rev acc) as [|x l IH]; simpl; [reflexivity | now rewrite IH].
Qed.

Lemma substring_of_cons (c : ascii) (w s : string) :
  substring_of w s -> substring_of w (String c s).
Proof.
  intros (pre & post & ->). now exists (String c pre), post.
Qed.

Lemma substring_of_app_l (a w s : string) :
  substring_of w s -> substring_of w (a ++ s).
Proof.
  intros Hs. induction a as [|c a IH]; simpl; [exact Hs|].
  now apply substring_of_cons.
Qed.

(** Every word of [s.split()] occurs in [s]. *)
Lemma split_loop_substring (s : string) :
  forall (acc : list ascii) (w : string),
    In w (split_loop acc s) -> substring_of w (rev_string acc ++ s).
Proof.
  induction s as [|c s IH]; intros acc w Hin; cbn [split_loop] in Hin.
  - destruct acc as [|a acc]; [destruct Hin|].
    destruct Hin as [<-|[]]. exists "", "". simpl. now rewrite sapp_nil_r.
  - destruct (isspace_char c).
    + assert (Hrest : In w (split_loop [] s) ->
                      substring_of w (rev_string acc ++ String c s)).
      { intros Hw. apply substring_of_app_l, substring_of_cons.
        exact (IH [] w Hw). }
      destruct acc as [|a acc]; [now apply Hrest|].
      destruct Hin as [<-|Hin]; [|now apply Hrest].
      exists "", (String c s). reflexivity.
    + specialize (IH (c :: acc) w Hin).
      rewrite rev_string_cons, sapp_assoc in IH. exact IH.
Qed.

Lemma split_substring (s w : string) : In w (split s) -> substring_of w s.
Proof. intros Hin. exact (split_loop_substring s [] w Hin). Qed.

(* ================================================================= *)
(** ** What the substitutions change *)

(** X8. [create_true_false_from_sentence] never raises, and a false card
    it returns is the sentence with one occurrence of one of its words
    replaced by a keyword: its statement always differs from the
    sentence. *)
Theorem create_true_false_false_statement_differs
        (nltk : Nltk) {R : Type} `{RandomSource R}
        (sentence : string) (keywords : list string) (g : R) :
  exists r g',
    create_true_false_from_sentence nltk sentence keywords g = Ok (r, g')
    /\ forall cards statement explanation,
         r = Some cards ->
         In (TrueFalse statement false explanation) cards ->
         statement <> sentence
         /\ exists word replacement pre post,
              In word (split sentence)
              /\ In replacement keywords
              /\ sentence = (pre ++ word ++ post)%string
              /\ statement = (pre ++ replacement ++ post)%string.
Proof.
  destruct (Nat.lt_ge_cases (length (split sentence)) 8) as [Hshort|Hlong].
  { exists None, g. split; [|discriminate].
    unfold create_true_false_from_sentence.
    apply Nat.ltb_lt in Hshort. now rewrite Hshort. }
  destruct (get_stopwords_total nltk) as [stop_words Hstop].
  destruct (create_true_false_spec nltk sentence keywords stop_words g
              Hlong Hstop)
    as (cards & g' & Hrun & Hcards & _).
  exists (Some cards), g'. split; [exact Hrun|].
  intros cards' q e Hsome Hin. injection Hsome as <-.
  destruct Hcards as [[-> _]|(sk & w & rs & r & Hcw & _ & Hr & Hdiff & ->)].
  { destruct Hin as [Hin|[]]. discriminate Hin. }
  destruct Hin as [Hin|[Hin|[]]]; [discriminate Hin|].
  injection Hin as <- _.
  assert (Hw : In w (split sentence)).
  { assert (Hf : In w (filter (tf_content_word stop_words) (split sentence)))
      by (rewrite Hcw; apply in_or_app; right; now left).
    now apply filter_In in Hf. }
  destruct (replace_first_found w r sentence (split_substring _ _ Hw))
    as (pre & post & Hs & Hrep & _).
  split.
  - intros Heq. rewrite Hrep in Heq.
    assert (Heq' : (pre ++ r ++ post = pre ++ w ++ post)%string)
      by (now rewrite <- Hs).
    apply sapp_inv_head, sapp_inv_tail in Heq'. apply Hdiff.
    now rewrite Heq'.
  - now exists w, r, pre, post.
Qed.

(** X9. When the answer of a multiple-choice card occurs in the sentence
    as written, the question is ["Complete the sentence: "] followed by
    the sentence with the leftmost occurrence of the answer replaced by
    the blank marker. *)
Theorem create_mcq_blank_inserted
        (nltk : Nltk) {R : Type} `{RandomSource R}
        (sentence : string) (keywords : list string) (g g' : R)
        (question : string) (options : list string) (answer : string)
        (idx : nat) (explanation : string) :
  create_mcq_from_sentence nltk sentence keywords g
  = Ok (Some (Mcq question options answer idx explanation), g') ->
  substring_of answer sentence ->
  exists pre post,
    sentence = (pre ++ answer ++ post)%string
    /\ question = ("Complete the sentence: " ++ pre ++ blank ++ post)%string
    /\ forall pre2 post2,
         sentence = (pre2 ++ answer ++ post2)%string -> len pre <= len pre2.
Proof.
  intros Hrun Hsub.
  destruct (create_mcq_run nltk sentence keywords g g' _ Hrun)
    as (t & ds & os & i & rest & Hc & _).
  injection Hc as -> _ -> _ _.
  destruct (replace_first_found t blank sentence Hsub)
    as (pre & post & Hs & Hrep & Hleft).
  exists pre, post. split; [exact Hs|]. split; [|exact Hleft].
  now rewrite Hrep.
Qed.

Lemma create_mcq_blank_inserted_witness :
  exists pre post,
    "This process is essential for cellular energy."
    = (pre ++ "process" ++ post)%string
    /\ "Complete the sentence: This ________ is essential for cellular energy."
       = ("Complete the sentence: " ++ pre ++ blank ++ post)%string.
Proof.
  destruct (create_mcq_blank_inserted nltk_unavailable
              "This process is essential for cellular energy."
              ["energy"; "cellular"] ([1; 4; 0; 0; 0; 0; 0] : tape) []
              "Complete the sentence: This ________ is essential for cellular energy."
              ["energy"; "model"; "process"; "process"] "process" 2
              "The correct answer is 'process' based on the context.")
    as (pre & post & Hs & Hq & _).
  - vm_compute. reflexivity.
  - exists "This ", " is essential for cellular energy.". reflexivity.
  - exists pre, post. split; [exact Hs | exact Hq].
Defined.

(** X10. With the whitespace tokenizer (the fallback) and a sentence
    written in lower case, every multiple-choice card has its blank: the
    answer is a word of the sentence, and the question is the sentence
    with the leftmost occurrence of the answer replaced by the marker
    (no occurrence of the answer starts before the replaced one). *)
Theorem create_mcq_blank_lowercase
        (nltk : Nltk) {R : Type} `{RandomSource R}
        (sentence : string) (keywords : list string) (g g' : R)
        (question : string) (options : list string) (answer : string)
        (idx : nat) (explanation : string) :
  safe_word_tokenize nltk sentence = Ok (split (lower sentence)) ->
  lower sentence = sentence ->
  create_mcq_from_sentence nltk sentence keywords g
  = Ok (Some (Mcq question options answer idx explanation), g') ->
  In answer (split sentence)
  /\ exists pre post,
       sentence = (pre ++ answer ++ post)%string
       /\ question
          = ("Complete the sentence: " ++ pre ++ blank ++ post)%string
       /\ forall pre2 post2,
            sentence = (pre2 ++ answer ++ post2)%string ->
            len pre <= len pre2.
Proof.
  intros Hwords Hlower Hrun. rewrite Hlower in Hwords.
  destruct (get_stopwords_total nltk) as [stop_words Hstop].
  destruct (create_mcq_spec nltk sentence keywords _ stop_words g
              Hwords Hstop)
    as [[_ Hnone]|(t & ds & os & i & g2 & Hsome & Hin & _)].
  { rewrite Hnone in Hrun. discriminate Hrun. }
  rewrite Hsome in Hrun. injection Hrun as <- _ <- _ _ _.
  apply filter_In in Hin. destruct Hin as [Hin _].
  split; [exact Hin|].
  destruct (replace_first_found t blank sentence (split_substring _ _ Hin))
    as (pre & post & Hs & Hrep & Hleft).
  exists pre, post. split; [exact Hs|]. split; [|exact Hleft].
  now rewrite Hrep.
Qed.

Lemma create_mcq_blank_lowercase_witness :
  In "process" (split "this process is essential for cellular energy.")
  /\ exists pre post,
       "this process is essential for cellular energy."
       = (pre ++ "process" ++ post)%string
       /\ "Complete the sentence: this ________ is essential for cellular energy."
          = ("Complete the sentence: " ++ pre ++ blank ++ post)%string
       /\ forall pre2 post2,
            "this process is essential for cellular energy."
            = (pre2 ++ "process" ++ post2)%string ->
            len pre <= len pre2.
Proof.
  apply (create_mcq_blank_lowercase nltk_unavailable
           "this process is essential for cellular energy."
           ["energy"; "cellular"] ([1; 4; 0; 0; 0; 0; 0] : tape) []
           "Complete the sentence: this ________ is essential for cellular energy."
           ["energy"; "model"; "process"; "process"] "process" 2
           "The correct answer is 'process' based on the context.");
    vm_compute; reflexivity.
Defined.

Lemma lower_char_idempotent (c : ascii) :
  lower_char (lower_char c) = lower_char c.
Proof.
  destruct c as [[] [] [] [] [] [] [] []]; vm_compute; reflexivity.
Qed.

Lemma lower_idempotent (s : string) : lower (lower s) = lower s.
Proof.
  unfold lower. induction s as [|c s IH]; simpl; [reflexivity|].
  now rewrite lower_char_idempotent, IH.
Qed.

(** X11. Keyword extraction and sentence scoring do not depend on letter
    case: a text and its lowercased form have the same keywords, and a
    sentence and its lowercased form have the same score. *)
Theorem extract_keywords_case_insensitive
        (nltk : Nltk) (text : string) (K : nat) (keywords : list string) :
  extract_keywords nltk (lower text) K = extract_keywords nltk text K
  /\ score_of nltk keywords (lower text) = score_of nltk keywords text.
Proof.
  unfold extract_keywords, score_of, safe_word_tokenize.
  now rewrite lower_idempotent.
Qed.

(* ================================================================= *)
(** ** The quiz runner *)

Definition outcome_ok (r : option session) : Prop :=
  match r with
  | Some s' => session_ok s'
  | None => True
  end.

Lemma py_index_in_range {A} (l : list A) (i : Z) :
  (0 <= i < Z.of_nat (length l))%Z ->
  exists x, py_index l i = Ok x /\ nth_error l (Z.to_nat i) = Some x.
Proof.
  intros Hi. unfold py_index.
  replace ((0 <=? i) && (i <? Z.of_nat (length l)))%Z with true
    by (symmetry; apply andb_true_iff; split;
        [apply Z.leb_le | apply Z.ltb_lt]; lia).
  apply index_at_lt. lia.
Qed.

Lemma match_nonempty {A B} (l : list A) (a b : B) :
  l <> [] -> match l with [] => a | _ :: _ => b end = b.
Proof. destruct l; [easy | reflexivity]. Qed.

Lemma reset_quiz_ok (s : session) :
  flashcards s <> [] -> session_ok (reset_quiz s).
Proof.
  intros Hne. split; simpl; [lia|]. intros _.
  destruct (flashcards s); [easy | simpl; lia].
Qed.

Lemma on_answer_ok (c : card) (ev : event) (s s' : session) :
  session_ok s -> on_answer c ev s = Some s' -> session_ok s'.
Proof.
  intros [Hscore Hpos] Hans. unfold on_answer in Hans.
  destruct (show_answer s); [discriminate|].
  assert (Hrec : forall sel ans b, session_ok (record_answer sel ans b s)).
  { intros sel ans b. split; simpl; [destruct b; lia | exact Hpos]. }
  destruct c, ev; try discriminate Hans.
  - destruct (i <? length options); [|discriminate Hans].
    injection Hans as <-. apply Hrec.
  - injection Hans as <-. apply Hrec.
  - injection Hans as <-. apply Hrec.
  - injection Hans as <-. apply Hrec.
Qed.

Section PlayerFacts.
Context (nltk : Nltk) {R : Type} `{RandomSource R}.

Lemma on_generate_ok (text : string) (num_mcq num_tf num_fill : nat)
      (s : session) (g : R) :
  session_ok s ->
  exists s' g',
    on_generate nltk text num_mcq num_tf num_fill s g = Ok (s', g')
    /\ session_ok s'.
Proof.
  intros Hs. unfold on_generate.
  destruct (String.eqb text ""); [now exists s, g|].
  destruct (generate_flashcards_total nltk text num_mcq num_tf num_fill g)
    as (deck & g' & Hrun).
  rewrite (bind_run _ _ _ _ _ Hrun).
  destruct deck as [|c deck]; [now exists s, g'|].
  eexists _, g'. split; [reflexivity|].
  apply reset_quiz_ok. simpl. discriminate.
Qed.

Lemma on_navigation_ok (ev : event) (s : session) (g : R) :
  session_ok s -> flashcards s <> [] ->
  exists r g', on_navigation ev s g = Ok (r, g') /\ outcome_ok r.
Proof.
  intros [Hscore Hpos] Hne. specialize (Hpos Hne).
  unfold on_navigation.
  destruct ev; try (now exists None, g).
  - destruct (Z.eqb_spec (current_card s) 0); [now exists None, g|].
    eexists (Some _), g. split; [reflexivity|].
    split; simpl; [exact Hscore | intros _; lia].
  - destruct (Z.eqb_spec (current_card s)
                         (Z.of_nat (length (flashcards s)) - 1));
      [now exists None, g|].
    eexists (Some _), g. split; [reflexivity|].
    split; simpl; [exact Hscore | intros _; lia].
  - destruct (Z.eqb_spec (current_card s)
                         (Z.of_nat (length (flashcards s)) - 1));
      [|now exists None, g].
    eexists (Some _), g. split; [reflexivity|].
    split; simpl; [exact Hscore | intros _; lia].
  - eexists (Some _), g. split; [reflexivity|]. now apply reset_quiz_ok.
  - destruct (shuffle_spec (flashcards s) g) as (x & g' & Hsh & Hperm).
    rewrite (bind_run _ _ _ _ _ Hsh).
    eexists (Some _), g'. split; [reflexivity|].
    apply reset_quiz_ok. simpl. intros ->.
    apply Permutation_nil in Hperm. contradiction.
  - eexists (Some _), g. split; [reflexivity|].
    split; simpl; [exact Hscore | intros _; lia].
Qed.

(** One press: the page never raises, and the session stays in order. *)
Lemma click_ok (s : session) (ev : event) (g : R) :
  session_ok s ->
  exists r g', click nltk s ev g = Ok (r, g') /\ outcome_ok r.
Proof.
  intros Hs.
  assert (Hpage : forall page : Rand R (option session),
            (flashcards s <> [] -> quiz_completed s = true ->
             exists r g', page g = Ok (r, g') /\ outcome_ok r) ->
            (page = match ev with
                    | ClickStartNewQuiz =>
                        if 0 <? total_answered s
                        then ret (Some (reset_quiz s)) else ret None
                    | _ => ret None
                    end) ->
            exists r g',
              match flashcards s with
              | [] => ret None
              | _ :: _ =>
                  if quiz_completed s then page
                  else
                    current <- lift (py_index (flashcards s)
                                              (current_card s)) ;;
                    match on_answer current ev s with
                    | Some s' => ret (Some s')
                    | None => on_navigation ev s
                    end
              end g = Ok (r, g') /\ outcome_ok r).
  { intros page Hdone _.
    assert (Hcase : flashcards s = [] \/ flashcards s <> [])
      by (destruct (flashcards s); [now left | now right]).
    destruct Hcase as [Hnil|Hne]; [rewrite Hnil; now exists None, g|].
    rewrite (match_nonempty _ _ _ Hne).
    destruct (quiz_completed s) eqn:Hq.
    - apply Hdone; [exact Hne | reflexivity].
    - destruct (py_index_in_range (flashcards s) (current_card s))
        as (cur & Hcur & _); [now apply Hs|].
      rewrite Hcur, bind_lift.
      destruct (on_answer cur ev s) as [s'|] eqn:Hans.
      + exists (Some s'), g. split; [reflexivity|].
        exact (on_answer_ok _ _ _ _ Hs Hans).
      + now apply on_navigation_ok. }
  unfold click.
  destruct ev;
    try (apply Hpage; [intros _ _; now exists None, g | reflexivity]).
  - destruct (on_generate_ok text num_mcq num_tf num_fill s g Hs)
      as (s' & g' & Hrun & Hs').
    rewrite (bind_run _ _ _ _ _ Hrun). now exists (Some s'), g'.
  - apply Hpage; [|reflexivity]. intros Hne _.
    destruct (0 <? total_answered s); [|now exists None, g].
    eexists (Some _), g. split; [reflexivity|]. now apply reset_quiz_ok.
Qed.

Lemma clicks_ok (evs : list event) :
  forall (s : session) (g : R),
    session_ok s ->
    exists s' g', clicks nltk s evs g = Ok (s', g') /\ session_ok s'.
Proof.
  induction evs as [|ev rest IH]; intros s g Hs.
  - now exists s, g.
  - cbn [clicks].
    destruct (click_ok s ev g Hs) as (r & g1 & Hrun & Hr).
    rewrite (bind_run _ _ _ _ _ Hrun).
    destruct r as [s1|]; now apply IH.
Qed.
End PlayerFacts.

(** X12. Whatever buttons are pressed, in whatever order, starting from
    a fresh session, the page never raises: the deck is never indexed
    out of range and no random helper fails. At every moment
    [score <= total_answered], and with a deck loaded
    [0 <= current_card < len(flashcards)]. *)
Theorem quiz_session_stays_in_range
        (nltk : Nltk) {R : Type} `{RandomSource R}
        (evs : list event) (g : R) :
  exists s g',
    clicks nltk initial_session evs g = Ok (s, g')
    /\ score s <= total_answered s
    /\ (flashcards s <> [] ->
        (0 <= current_card s < Z.of_nat (length (flashcards s)))%Z
        /\ exists c, py_index (flashcards s) (current_card s) = Ok c).
Proof.
  destruct (clicks_ok nltk evs initial_session g) as (s & g' & Hrun & Hs).
  { split; simpl; [lia | easy]. }
  exists s, g'. split; [exact Hrun|].
  destruct Hs as [Hscore Hpos]. split; [exact Hscore|].
  intros Hne. specialize (Hpos Hne). split; [exact Hpos|].
  destruct (py_index_in_range (flashcards s) (current_card s) Hpos)
    as (c & Hc & _).
  now exists c.
Qed.

Section PlayerTraces.
Context (nltk : Nltk) {R : Type} `{RandomSource R}.

Lemma on_answer_not_answer (c : card) (ev : event) (s : session) :
  match ev with
  | ClickOption _ | ClickTrue | ClickFalse | SubmitAnswer _ => False
  | _ => True
  end ->
  on_answer c ev s = None.
Proof.
  intros Hev. unfold on_answer. destruct (show_answer s); [reflexivity|].
  destruct c, ev; try reflexivity; contradiction.
Qed.

(** Pressing Next [k] times moves [k] cards forward, as long as the last
    card is not passed. *)
Lemma clicks_next (k : nat) :
  forall (p : Z) (s0 : session) (rest : list event) (g : R),
    flashcards s0 <> [] -> quiz_completed s0 = false ->
    (0 <= p)%Z ->
    (p + Z.of_nat k <= Z.of_nat (length (flashcards s0)) - 1)%Z ->
    clicks nltk (move_to p s0) (repeat ClickNext k ++ rest) g
    = clicks nltk (move_to (p + Z.of_nat k) s0) rest g.
Proof.
  induction k as [|k IH]; intros p s0 rest g Hne Hq Hp Hk.
  - simpl. now rewrite Z.add_0_r.
  - cbn [repeat app clicks]. unfold click.
    cbn [flashcards quiz_completed move_to current_card].
    rewrite (match_nonempty _ _ _ Hne), Hq.
    destruct (py_index_in_range (flashcards s0) p) as (cur & Hcur & _);
      [lia|].
    unfold bind at 1. unfold bind at 1. unfold lift. rewrite Hcur.
    rewrite on_answer_not_answer by exact I.
    unfold on_navigation.
    cbn [flashcards move_to current_card].
    destruct (Z.eqb_spec p (Z.of_nat (length (flashcards s0)) - 1)); [lia|].
    unfold ret.
    change (move_to (p + 1) (move_to p s0)) with (move_to (p + 1) s0).
    rewrite IH by (try assumption; lia).
    f_equal. f_equal. lia.
Qed.
End PlayerTraces.

(** X13. A quiz finished before any answer is a dead end. With a deck of
    any size loaded, pressing Next up to the last card and then Finish
    completes the quiz with nothing answered; the results are then not
    shown and no button of the player is on the page: every press other
    than generating a new deck does nothing. *)
Theorem quiz_finished_unanswered_dead_end
        (nltk : Nltk) {R : Type} `{RandomSource R}
        (deck : list card) (s0 : session) (g : R) :
  deck <> [] ->
  exists s,
    clicks nltk (reset_quiz (set_flashcards deck s0))
           (repeat ClickNext (length deck - 1) ++ [ClickFinish]) g
    = Ok (s, g)
    /\ flashcards s = deck
    /\ quiz_completed s = true
    /\ total_answered s = 0
    /\ forall ev g1,
         (forall text a b c, ev <> Generate text a b c) ->
         click nltk s ev g1 = Ok (None, g1).
Proof.
  intros Hne.
  set (loaded := reset_quiz (set_flashcards deck s0)).
  set (last := (Z.of_nat (length deck) - 1)%Z).
  assert (Hlen : 0 < length deck) by (destruct deck; [easy | simpl; lia]).
  exists (set_quiz_completed (move_to last loaded)).
  split; [|split; [reflexivity|split; [reflexivity|split; [reflexivity|]]]].
  - change loaded with (move_to 0 loaded) at 1.
    rewrite (clicks_next nltk (length deck - 1) 0 loaded [ClickFinish] g);
      try (simpl; easy); [|simpl; lia].
    replace (0 + Z.of_nat (length deck - 1))%Z with last
      by (unfold last; lia).
    cbn [clicks]. unfold click.
    cbn [flashcards quiz_completed move_to current_card loaded reset_quiz
         set_flashcards].
    rewrite (match_nonempty _ _ _ Hne).
    destruct (py_index_in_range deck last) as (cur & Hcur & _);
      [unfold last; lia|].
    unfold bind at 1. unfold bind at 1. unfold lift. rewrite Hcur.
    rewrite on_answer_not_answer by exact I.
    unfold on_navigation.
    cbn [flashcards move_to current_card reset_quiz set_flashcards].
    fold last. rewrite Z.eqb_refl. reflexivity.
  - intros ev g1 Hev. unfold click.
    cbn [flashcards quiz_completed set_quiz_completed move_to loaded
         reset_quiz set_flashcards total_answered].
    rewrite (match_nonempty _ _ _ Hne).
    destruct ev; try reflexivity.
    exfalso. now apply (Hev text num_mcq num_tf num_fill).
Qed.

Lemma quiz_finished_unanswered_dead_end_witness :
  exists s,
    clicks nltk_unavailable
      (reset_quiz (set_flashcards
                     [true_card "Water is wet."; true_card "Fire is hot."]
                     initial_session))
      [ClickNext; ClickFinish] ([] : tape)
    = Ok (s, [])
    /\ quiz_completed s = true
    /\ click nltk_unavailable s ClickStartNewQuiz ([] : tape) = Ok (None, []).
Proof.
  destruct (quiz_finished_unanswered_dead_end nltk_unavailable
              [true_card "Water is wet."; true_card "Fire is hot."]
              initial_session ([] : tape))
    as (s & Hrun & _ & Hdone & _ & Hdead); [discriminate|].
  exists s. split; [exact Hrun|]. split; [exact Hdone|].
  apply Hdead. discriminate.
Defined.

Lemma mem_In (w : string) (ws : list string) : mem w ws = true -> In w ws.
Proof.
  unfold mem. intros Hm. apply existsb_exists in Hm.
  destruct Hm as (x & Hx & Heq). apply String.eqb_eq in Heq. now subst x.
Qed.

Lemma lower_filter_lower (p : ascii -> bool) (s : string) :
  lower (filter_string p (lower s)) = filter_string p (lower s).
Proof.
  unfold lower. induction s as [|c s IH]; simpl; [reflexivity|].
  destruct (p (lower_char c)); simpl; [|exact IH].
  now rewrite lower_char_idempotent, IH.
Qed.

Lemma filter_string_idempotent (p : ascii -> bool) (s : string) :
  filter_string p (filter_string p s) = filter_string p s.
Proof.
  induction s as [|c s IH]; simpl; [reflexivity|].
  destruct (p c) eqn:Hp; simpl; [|exact IH]. now rewrite Hp, IH.
Qed.

Lemma normalized_idempotent (w : string) :
  normalized (normalized w) = normalized w.
Proof.
  unfold normalized, strip_non_word.
  now rewrite lower_filter_lower, filter_string_idempotent.
Qed.

(** X14. The answer check of a fill-in-the-blank card accepts the keyword
    that made the generator blank the word: for a card made by
    [create_fill_blank_from_sentence], some keyword of more than three
    characters, submitted as the answer while the card is shown, is
    counted as correct, whatever punctuation or capitals the recorded
    answer carries. *)
Theorem fill_blank_keyword_accepted
        (nltk : Nltk) {R : Type} `{RandomSource R}
        (sentence : string) (keywords : list string)
        (question answer explanation : string) :
  create_fill_blank_from_sentence sentence keywords
  = Some (FillBlank question answer explanation) ->
  exists k,
    In k keywords /\ 3 < len k
    /\ fill_answer_correct answer k = true
    /\ forall (s : session) (g : R),
         flashcards s <> [] -> quiz_completed s = false ->
         show_answer s = false ->
         py_index (flashcards s) (current_card s)
         = Ok (FillBlank question answer explanation) ->
         exists s',
           click nltk s (SubmitAnswer k) g = Ok (Some s', g)
           /\ score s' = score s + 1
           /\ total_answered s' = total_answered s + 1.
Proof.
  unfold create_fill_blank_from_sentence.
  destruct (length (split sentence) <? 10); [discriminate|].
  intros Hc.
  apply (fill_blank_loop_some keywords (split sentence) []) in Hc;
    [|reflexivity|constructor].
  destruct Hc as (i & word & _ & Hcand & _ & Hcard).
  injection Hcard as _ -> _.
  unfold fill_candidate in Hcand. apply andb_true_iff in Hcand.
  destruct Hcand as [Hmem Hlen]. apply Nat.ltb_lt in Hlen.
  assert (Hok : fill_answer_correct word (strip_non_word (lower word)) = true).
  { unfold fill_answer_correct. apply String.eqb_eq.
    symmetry. exact (normalized_idempotent word). }
  exists (strip_non_word (lower word)).
  split; [now apply mem_In|]. split; [exact Hlen|]. split; [exact Hok|].
  intros s g Hne Hq Hshow Hcur. unfold click.
  rewrite (match_nonempty _ _ _ Hne), Hq, Hcur, bind_lift.
  unfold on_answer. rewrite Hshow, Hok.
  eexists. split; [reflexivity|]. split; reflexivity.
Qed.

Lemma fill_blank_keyword_accepted_witness :
  exists k,
    In k ["energy"; "cell"] /\ 3 < len k
    /\ fill_answer_correct "Cell," k = true.
Proof.
  destruct (fill_blank_keyword_accepted nltk_unavailable (R := tape)
              "The Cell, is the (Energy) of a b c d e f" ["energy"; "cell"]
              "Fill in the blank: The ________ is the (Energy) of a b c d e f"
              "Cell,"
              "The correct word is 'Cell,' based on the context.")
    as (k & Hin & Hlen & Hok & _).
  - vm_compute. reflexivity.
  - now exists k.
Defined.

(** X15. The Shuffle button keeps the cards of the deck, each as often
    as before, and restarts the quiz: first card, no score, nothing
    answered. It never raises. *)
Theorem click_shuffle_keeps_cards
        (nltk : Nltk) {R : Type} `{RandomSource R}
        (s : session) (g : R) :
  flashcards s <> [] ->
  quiz_completed s = false ->
  (0 <= current_card s < Z.of_nat (length (flashcards s)))%Z ->
  exists s' g',
    click nltk s ClickShuffle g = Ok (Some s', g')
    /\ Permutation (flashcards s') (flashcards s)
    /\ current_card s' = 0%Z
    /\ score s' = 0 /\ total_answered s' = 0
    /\ show_answer s' = false /\ quiz_completed s' = false.
Proof.
  intros Hne Hq Hpos. unfold click.
  rewrite (match_nonempty _ _ _ Hne), Hq.
  destruct (py_index_in_range (flashcards s) (current_card s) Hpos)
    as (cur & Hcur & _).
  rewrite Hcur, bind_lift, on_answer_not_answer by exact I.
  unfold on_navigation.
  destruct (shuffle_spec (flashcards s) g) as (x & g' & Hsh & Hperm).
  rewrite (bind_run _ _ _ _ _ Hsh).
  eexists _, g'. split; [reflexivity|].
  now repeat split.
Qed.

Lemma click_shuffle_keeps_cards_witness :
  exists s' g',
    click nltk_unavailable
      (reset_quiz (set_flashcards
                     [true_card "Water is wet."; true_card "Fire is hot.";
                      true_card "Ice is cold."]
                     initial_session))
      ClickShuffle ([1; 0] : tape)
    = Ok (Some s', g')
    /\ Permutation (flashcards s')
         [true_card "Water is wet."; true_card "Fire is hot.";
          true_card "Ice is cold."].
Proof.
  destruct (click_shuffle_keeps_cards nltk_unavailable
              (reset_quiz (set_flashcards
                             [true_card "Water is wet.";
                              true_card "Fire is hot.";
                              true_card "Ice is cold."]
                             initial_session))
              ([1; 0] : tape))
    as (s' & g' & Hrun & Hperm & _).
  - discriminate.
  - reflexivity.
  - simpl. lia.
  - now exists s', g'.
Defined.

(* ================================================================= *)
(** ** Where the distractors come from *)

(** X16. Every option of a multiple-choice card made from at most 21
    keywords, other than the answer, is a keyword of more than two
    characters, different from the answer, or one of the generic words;
    the generic words are used only when fewer than three keywords are
    usable. *)
Theorem create_mcq_distractor_origin
        (nltk : Nltk) {R : Type} `{RandomSource R}
        (sentence : string) (keywords : list string) (g g' : R)
        (question : string) (options : list string) (answer : string)
        (idx : nat) (explanation : string) :
  length keywords <= 21 ->
  create_mcq_from_sentence nltk sentence keywords g
  = Ok (Some (Mcq question options answer idx explanation), g') ->
  let usable :=
    filter (fun w => negb (String.eqb w answer) && (2 <? len w)) keywords in
  forall o, In o options ->
    o = answer
    \/ (In o keywords /\ 2 < len o /\ o <> answer)
    \/ (length usable < 3 /\ In o general_distractors).
Proof.
  intros _ Hrun usable o Ho.
  destruct (create_mcq_run nltk sentence keywords g g' _ Hrun)
    as (t & ds & os & i & rest & Hc & _ & Hsub & Hperm).
  injection Hc as _ -> -> _ _.
  apply (Permutation_in _ Hperm) in Ho. apply in_app_or in Ho.
  destruct Ho as [Ho|[<-|[]]]; [right | now left].
  assert (Hpd : In o (potential_distractors keywords t)).
  { apply (Permutation_in _ Hsub). apply in_or_app. now left. }
  unfold potential_distractors in Hpd. fold usable in Hpd.
  assert (Husable : In o usable ->
                    In o keywords /\ 2 < len o /\ o <> t).
  { intros Hu. apply filter_In in Hu. destruct Hu as [Hk Hf].
    apply andb_true_iff in Hf. destruct Hf as [Hneq Hlen].
    apply negb_true_iff, String.eqb_neq in Hneq.
    apply Nat.ltb_lt in Hlen. now repeat split. }
  destruct (length usable <? 3) eqn:Hlt.
  - apply Nat.ltb_lt in Hlt. apply in_app_or in Hpd.
    destruct Hpd as [Hu|Hg]; [left; now apply Husable | right; now split].
  - left. now apply Husable.
Qed.

Lemma create_mcq_distractor_origin_witness :
  "model" = "process"
  \/ (In "model" ["energy"; "cellular"] /\ 2 < len "model"
      /\ "model" <> "process")
  \/ (length (filter (fun w => negb (String.eqb w "process")
                                && (2 <? len w))
                      ["energy"; "cellular"]) < 3
      /\ In "model" general_distractors).
Proof.
  apply (create_mcq_distractor_origin nltk_unavailable
           "This process is essential for cellular energy."
           ["energy"; "cellular"] ([1; 4; 0; 0; 0; 0; 0] : tape) []
           "Complete the sentence: This ________ is essential for cellular energy."
           ["energy"; "model"; "process"; "process"] "process" 2
           "The correct answer is 'process' based on the context.").
  - simpl. lia.
  - vm_compute. reflexivity.
  - simpl. tauto.
Defined.

(* ================================================================= *)
(** ** Generating a deck from the page *)

(** X17. The generate buttons of [main] never raise. Either the session
    is left exactly as it was (no text, or no card could be made, as for
    a text of fewer than 100 characters), or a non-empty deck of at most
    [num_mcq + num_tf + num_fill] cards is installed and the quiz
    restarts at its first card with no score. *)
Theorem click_generate_outcome
        (nltk : Nltk) {R : Type} `{RandomSource R}
        (text : string) (num_mcq num_tf num_fill : nat)
        (s : session) (g : R) :
  exists s' g',
    click nltk s (Generate text num_mcq num_tf num_fill) g = Ok (Some s', g')
    /\ (s' = s
        \/ (flashcards s' <> []
            /\ length (flashcards s') <= num_mcq + num_tf + num_fill
            /\ generate_flashcards nltk text num_mcq num_tf num_fill g
               = Ok (flashcards s', g')
            /\ current_card s' = 0%Z
            /\ score s' = 0 /\ total_answered s' = 0
            /\ show_answer s' = false /\ quiz_completed s' = false))
    /\ (len text < 100 -> s' = s /\ g' = g).
Proof.
  unfold click, on_generate.
  destruct (String.eqb_spec text "") as [->|Htext].
  { exists s, g. split; [reflexivity|]. split; [now left | now split]. }
  destruct (String.eqb text "" || (len (strip text) <? 100)) eqn:Hguard.
  - exists s, g. unfold generate_flashcards. rewrite Hguard.
    split; [reflexivity|]. split; [now left | now split].
  - assert (Hlong : ~ len text < 100).
    { apply orb_false_iff in Hguard. destruct Hguard as [_ Hlen].
      apply Nat.ltb_ge in Hlen. pose proof (strip_length text). lia. }
    destruct (extract_key_sentences_total nltk text 25) as (ks & kws & Hks).
    destruct (generate_flashcards_spec nltk text num_mcq num_tf num_fill g
                ks kws Hguard Hks)
      as (_ & _ & deck & g' & Hrun & _ & _ & _ & _ & Hlen).
    unfold bind at 1. unfold bind at 1. rewrite Hrun.
    destruct deck as [|c deck].
    + exists s, g'. split; [reflexivity|]. split; [now left | easy].
    + eexists _, g'. split; [reflexivity|]. split; [|easy].
      right. repeat split; try assumption. discriminate.
Qed.

(* ================================================================= *)
(** ** The fallback sentence splitter *)

Lemma has_char_app (c : ascii) (a b : string) :
  has_char c (a ++ b) = has_char c a || has_char c b.
Proof.
  induction a as [|x a IH]; simpl; [reflexivity|].
  now rewrite IH, orb_assoc.
Qed.

Lemma has_char_substring (c : ascii) (w s : string) :
  substring_of w s -> has_char c s = false -> has_char c w = false.
Proof.
  intros (pre & post & ->). rewrite !has_char_app.
  intros Hs. apply orb_false_iff in Hs. destruct Hs as [_ Hs].
  now apply orb_false_iff in Hs.
Qed.

Lemma substring_of_refl (s : string) : substring_of s s.
Proof. exists "", "". simpl. now rewrite sapp_nil_r. Qed.

Lemma substring_of_trans (a b c : string) :
  substring_of a b -> substring_of b c -> substring_of a c.
Proof.
  intros (p1 & q1 & ->) (p2 & q2 & ->).
  exists (p2 ++ p1)%string, (q1 ++ q2)%string.
  now rewrite !sapp_assoc.
Qed.

Lemma lstrip_substring (s : string) : substring_of (lstrip s) s.
Proof.
  induction s as [|c s IH]; simpl; [apply substring_of_refl|].
  destruct (isspace_char c); [|apply substring_of_refl].
  now apply substring_of_cons.
Qed.

Lemma rstrip_prefix (s : string) : exists post, s = (rstrip s ++ post)%string.
Proof.
  induction s as [|c s [post IH]]; simpl; [now exists ""|].
  destruct (rstrip s) as [|x r] eqn:Hr.
  - destruct (isspace_char c).
    + now exists (String c s).
    + exists s. reflexivity.
  - exists post. simpl. simpl in IH. now rewrite <- IH.
Qed.

Lemma strip_substring (s : string) : substring_of (strip s) s.
Proof.
  unfold strip. apply (substring_of_trans _ (lstrip s)).
  - destruct (rstrip_prefix (lstrip s)) as [post Hpost].
    exists "", post. simpl. exact Hpost.
  - apply lstrip_substring.
Qed.

(** The pieces of [s.split(sep)] occur in [s] and do not contain the
    separator. *)
Lemma split_on_loop_pieces (sep : ascii) (s : string) :
  forall (acc : list ascii) (piece : string),
    has_char sep (rev_string acc) = false ->
    In piece (split_on_loop sep acc s) ->
    has_char sep piece = false
    /\ substring_of piece (rev_string acc ++ s).
Proof.
  induction s as [|c s IH]; intros acc piece Hacc Hin;
    cbn [split_on_loop] in Hin.
  - destruct Hin as [<-|[]]. split; [exact Hacc|].
    rewrite sapp_nil_r. apply substring_of_refl.
  - destruct (Ascii.eqb c sep) eqn:Hc.
    + destruct Hin as [<-|Hin].
      * split; [exact Hacc|]. exists "", (String c s). reflexivity.
      * destruct (IH [] piece eq_refl Hin) as [Hno Hsub].
        split; [exact Hno|].
        now apply substring_of_app_l, substring_of_cons.
    + assert (Hacc' : has_char sep (rev_string (c :: acc)) = false).
      { rewrite rev_string_cons, has_char_app, Hacc. simpl. now rewrite Hc. }
      destruct (IH (c :: acc) piece Hacc' Hin) as [Hno Hsub].
      split; [exact Hno|].
      rewrite rev_string_cons, sapp_assoc in Hsub. exact Hsub.
Qed.

(** X18. When NLTK's sentence tokenizer is unavailable, the sentences of
    [safe_sent_tokenize] are pieces of the text between periods, trimmed
    and closed by a period: each is a non-empty stretch of the text that
    contains no period, followed by ["."]. *)
Theorem safe_sent_tokenize_fallback_sentences
        (nltk : Nltk) (text : string) (e : exn) :
  sent_tokenize nltk text = Raise e ->
  exists sentences,
    safe_sent_tokenize nltk text = Ok sentences
    /\ Forall (fun sentence =>
                 exists body,
                   sentence = (body ++ ".")%string
                   /\ body <> ""
                   /\ has_char "." body = false
                   /\ substring_of body text)
              sentences.
Proof.
  intros Hraise. unfold safe_sent_tokenize, try_except. rewrite Hraise.
  eexists. split; [reflexivity|].
  apply Forall_forall. intros sentence Hs.
  apply in_map_iff in Hs. destruct Hs as (piece & <- & Hpiece).
  apply filter_In in Hpiece. destruct Hpiece as [Hin Hne].
  apply negb_true_iff, String.eqb_neq in Hne.
  destruct (split_on_loop_pieces "." text [] piece eq_refl Hin)
    as [Hno Hsub].
  exists (strip piece). split; [reflexivity|]. split; [exact Hne|].
  split.
  - exact (has_char_substring _ _ _ (strip_substring piece) Hno).
  - exact (substring_of_trans _ _ _ (strip_substring piece) Hsub).
Qed.

Lemma safe_sent_tokenize_fallback_sentences_witness :
  exists sentences,
    safe_sent_tokenize nltk_unavailable
      "Cells make energy.  Plants use light. . Water is wet"
    = Ok sentences
    /\ Forall (fun sentence =>
                 exists body,
                   sentence = (body ++ ".")%string
                   /\ body <> ""
                   /\ has_char "." body = false
                   /\ substring_of body
                        "Cells make energy.  Plants use light. . Water is wet")
              sentences.
Proof.
  apply (safe_sent_tokenize_fallback_sentences nltk_unavailable _ LookupError).
  reflexivity.
Defined.

Lemma click_generate_outcome_witness :
  click nltk_unavailable initial_session
        (Generate "The mitochondria is the powerhouse of the cell." 8 4 3)
        ([2; 7] : tape)
  = Ok (Some initial_session, [2; 7]).
Proof.
  destruct (click_generate_outcome nltk_unavailable
              "The mitochondria is the powerhouse of the cell." 8 4 3
              initial_session ([2; 7] : tape))
    as (s' & g' & Hrun & _ & Hshort).
  destruct Hshort as [-> ->]; [vm_compute; lia|]. exact Hrun.
Defined.

(* ================================================================= *)
(** ** Answers are counted per press *)

Section Rounds.
Context (nltk : Nltk) {R : Type} `{RandomSource R}.

(** Answer the first card, go to the second, come back: the first card
    can be answered again, and one more answer has been counted. *)
Lemma answer_round (deck : list card) (c0 : card) (s : session)
      (rest : list event) (g : R) :
  2 <= length deck -> nth_error deck 0 = Some c0 -> mcq_well_formed c0 ->
  flashcards s = deck -> current_card s = 0%Z ->
  quiz_completed s = false -> show_answer s = false ->
  exists s',
    clicks nltk s ([answer_button c0; ClickNext; ClickPrevious] ++ rest) g
    = clicks nltk s' rest g
    /\ flashcards s' = deck /\ current_card s' = 0%Z
    /\ quiz_completed s' = false /\ show_answer s' = false
    /\ total_answered s' = total_answered s + 1.
Proof.
  intros Hlen Hc0 Hwf Hdeck Hpos Hq Hshow.
  assert (Hne : deck <> []) by (destruct deck; [simpl in Hlen; lia | easy]).
  assert (Hcur0 : py_index deck 0 = Ok c0).
  { destruct (py_index_in_range deck 0) as (c & Hc & Hn); [lia|].
    change (Z.to_nat 0) with 0 in Hn. rewrite Hc0 in Hn.
    injection Hn as <-. exact Hc. }
  destruct (py_index_in_range deck 1) as (c1 & Hcur1 & _); [lia|].
  assert (Hans : exists s1,
             on_answer c0 (answer_button c0) s = Some s1
             /\ flashcards s1 = deck /\ current_card s1 = 0%Z
             /\ quiz_completed s1 = false
             /\ total_answered s1 = total_answered s + 1).
  { unfold on_answer. rewrite Hshow.
    destruct c0 as [q os a i e|q a e|q a e]; cbn [answer_button].
    - destruct Hwf as [Hos _]. rewrite Hos. cbn [Nat.ltb Nat.leb].
      eexists. split; [reflexivity|]. now repeat split.
    - eexists. split; [reflexivity|]. now repeat split.
    - eexists. split; [reflexivity|]. now repeat split. }
  destruct Hans as (s1 & Hs1 & Hd1 & Hp1 & Hq1 & Ht1).
  exists (move_to 0 (move_to 1 s1)).
  split; [|now repeat split].
  cbn [app clicks].
  (* the answer *)
  unfold click at 1.
  assert (Hpage : forall ev, match ev with
                             | Generate _ _ _ _ => False | _ => True end ->
                  forall st, flashcards st = deck ->
                             quiz_completed st = false ->
                  click nltk st ev
                  = (current <- lift (py_index deck (current_card st)) ;;
                     match on_answer current ev st with
                     | Some s' => ret (Some s')
                     | None => on_navigation ev st
                     end)).
  { intros ev Hev st Hst Hqst. unfold click.
    destruct ev; try contradiction;
      rewrite Hst, (match_nonempty _ _ _ Hne), Hqst; reflexivity. }
  fold (click nltk s (answer_button c0)).
  assert (Hab : match answer_button c0 with
                | Generate _ _ _ _ => False | _ => True end)
    by (destruct c0; exact I).
  rewrite (bind_run _ _ g g (Some s1)).
  2:{ rewrite (Hpage _ Hab s Hdeck Hq), Hpos.
      unfold bind, lift. rewrite Hcur0, Hs1. reflexivity. }
  rewrite (bind_run _ _ g g (Some (move_to 1 s1))).
  2:{ rewrite (Hpage ClickNext I s1 Hd1 Hq1), Hp1.
      unfold bind, lift. rewrite Hcur0.
      rewrite on_answer_not_answer by exact I.
      unfold on_navigation. rewrite Hp1, Hd1.
      destruct (Z.eqb_spec 0 (Z.of_nat (length deck) - 1)); [lia|].
      reflexivity. }
  rewrite (bind_run _ _ g g (Some (move_to 0 (move_to 1 s1)))).
  2:{ rewrite (Hpage ClickPrevious I (move_to 1 s1) Hd1 Hq1).
      cbn [current_card move_to].
      unfold bind, lift. rewrite Hcur1.
      rewrite on_answer_not_answer by exact I.
      unfold on_navigation. cbn [current_card move_to]. reflexivity. }
  reflexivity.
Qed.

Lemma answer_rounds (deck : list card) (c0 : card) (n : nat) :
  2 <= length deck -> nth_error deck 0 = Some c0 -> mcq_well_formed c0 ->
  forall (s : session) (g : R),
    flashcards s = deck -> current_card s = 0%Z ->
    quiz_completed s = false -> show_answer s = false ->
    exists s',
      clicks nltk s
        (concat (repeat [answer_button c0; ClickNext; ClickPrevious] n)) g
      = Ok (s', g)
      /\ flashcards s' = deck
      /\ total_answered s' = total_answered s + n.
Proof.
  intros Hlen Hc0 Hwf. induction n as [|n IH]; intros s g Hd Hp Hq Hsh.
  - exists s. simpl. split; [reflexivity|]. split; [exact Hd | lia].
  - cbn [repeat concat].
    destruct (answer_round deck c0 s
                (concat (repeat [answer_button c0; ClickNext; ClickPrevious]
                                n)) g Hlen Hc0 Hwf Hd Hp Hq Hsh)
      as (s1 & Hrun & Hd1 & Hp1 & Hq1 & Hsh1 & Ht1).
    destruct (IH s1 g Hd1 Hp1 Hq1 Hsh1) as (s' & Hrun' & Hd' & Ht').
    exists s'. rewrite Hrun, Hrun'.
    split; [reflexivity|]. split; [exact Hd' | lia].
Qed.
End Rounds.

(** X19. Answers are counted per press, not per card. With a deck of at
    least two cards, answering the first card, pressing Next and then
    Previous shows the first card again with its answer buttons; repeated
    [n] times this leaves [total_answered = n], for any [n], so the
    number of answers counted can exceed the number of cards. *)
Theorem quiz_answers_counted_per_press
        (nltk : Nltk) {R : Type} `{RandomSource R}
        (deck : list card) (c0 : card) (s0 : session) (n : nat) (g : R) :
  2 <= length deck ->
  nth_error deck 0 = Some c0 ->
  mcq_well_formed c0 ->
  exists s,
    clicks nltk (reset_quiz (set_flashcards deck s0))
      (concat (repeat [answer_button c0; ClickNext; ClickPrevious] n)) g
    = Ok (s, g)
    /\ flashcards s = deck
    /\ total_answered s = n.
Proof.
  intros Hlen Hc0 Hwf.
  destruct (answer_rounds nltk deck c0 n Hlen Hc0 Hwf
              (reset_quiz (set_flashcards deck s0)) g)
    as (s & Hrun & Hd & Ht); try reflexivity.
  exists s. now repeat split.
Qed.

Lemma quiz_answers_counted_per_press_witness :
  exists s,
    clicks nltk_unavailable
      (reset_quiz (set_flashcards
                     [true_card "Water is wet."; true_card "Fire is hot."]
                     initial_session))
      (concat (repeat [ClickTrue; ClickNext; ClickPrevious] 3))
      ([] : tape)
    = Ok (s, [])
    /\ flashcards s = [true_card "Water is wet."; true_card "Fire is hot."]
    /\ total_answered s = 3.
Proof.
  apply (quiz_answers_counted_per_press nltk_unavailable
           [true_card "Water is wet."; true_card "Fire is hot."]
           (true_card "Water is wet.") initial_session 3 ([] : tape)).
  - simpl. lia.
  - reflexivity.
  - exact I.
Defined.
